(** * ExecutionEngine (src/js/executionEngine.js): instrumented stepped execution

    A shallow embedding of the [ExecutionEngine] class and of the host
    string operations it relies on, followed by the properties of the
    engine's execution-trace data model. *)

From Stdlib Require Import List ZArith NArith Lia Bool Ascii String.
From Stdlib Require Import DecimalString QArith Sorted Permutation.
From Stdlib Require DecimalPos DecimalZ.
Import ListNotations.

(* ================================================================== *)
(** ** Host strings

    A JavaScript string is a sequence of UTF-16 code units.  Only the
    operations the engine calls are embedded: [split], [join], [trim],
    [startsWith], [includes] and the conversion of an integer to text. *)

Module JS.

Definition jsstring := list N.

(** A source literal, character by character. *)
Definition lit (s : string) : jsstring :=
  map N_of_ascii (list_ascii_of_string s).

(** The separator of [code.split('\n')]. *)
Definition nl : N := 10%N.

Fixpoint string_eqb (a b : jsstring) : bool :=
  match a, b with
  | [], [] => true
  | x :: a', y :: b' => N.eqb x y && string_eqb a' b'
  | _, _ => false
  end.

Definition isEmpty (s : jsstring) : bool :=
  match s with [] => true | _ => false end.

(** [s.split(sep)] for a one-unit separator: never the empty array,
    the empty string splits into one empty piece. *)
Fixpoint split (sep : N) (s : jsstring) : list jsstring :=
  match s with
  | [] => [[]]
  | c :: rest =>
      if N.eqb c sep then [] :: split sep rest
      else match split sep rest with
           | piece :: pieces => (c :: piece) :: pieces
           | [] => [[c]]
           end
  end.

(** [pieces.join(sep)]. *)
Fixpoint join (sep : jsstring) (pieces : list jsstring) : jsstring :=
  match pieces with
  | [] => []
  | [p] => p
  | p :: rest => p ++ sep ++ join sep rest
  end.

(** White space and line terminators, the units [trim] strips
    (ECMAScript WhiteSpace and LineTerminator). *)
Definition isWhiteSpace (c : N) : bool :=
  ((9 <=? c) && (c <=? 13) || (c =? 32) || (c =? 160) || (c =? 5760)
   || (8192 <=? c) && (c <=? 8202) || (c =? 8232) || (c =? 8233)
   || (c =? 8239) || (c =? 8287) || (c =? 12288) || (c =? 65279))%N.

Fixpoint trimStart (s : jsstring) : jsstring :=
  match s with
  | c :: rest => if isWhiteSpace c then trimStart rest else s
  | [] => []
  end.

Definition trimEnd (s : jsstring) : jsstring := rev (trimStart (rev s)).

Definition trim (s : jsstring) : jsstring := trimEnd (trimStart s).

Fixpoint startsWith (s prefix : jsstring) : bool :=
  match prefix, s with
  | [], _ => true
  | p :: prefix', c :: s' => N.eqb c p && startsWith s' prefix'
  | _ :: _, [] => false
  end.

Fixpoint includes (s sub : jsstring) : bool :=
  startsWith s sub ||
  match s with
  | [] => false
  | _ :: s' => includes s' sub
  end.

(** Text of an integer, as a template literal or [String(n)] prints
    it (integers below 10^21 in magnitude print in plain decimal). *)
Definition numberToString (z : Z) : jsstring :=
  lit (NilZero.string_of_int (Z.to_int z)).

End JS.

Import JS.

(* ================================================================== *)
(** ** Instrumenter *)

Module Instrumenter.

Definition commentMarker : jsstring := lit "//".

(** The callback of [lines.map((line, idx) => ...)]. *)
Definition instrumentLine (idx : nat) (line : jsstring) : jsstring :=
  if isEmpty (trim line) || startsWith (trim line) commentMarker then line
  else lit "__track(" ++ numberToString (Z.of_nat idx + 1) ++ lit "); " ++ line.

(** [Array.prototype.map] with the element index. *)
Fixpoint mapIndexed (f : nat -> jsstring -> jsstring) (idx : nat)
    (lines : list jsstring) : list jsstring :=
  match lines with
  | [] => []
  | line :: rest => f idx line :: mapIndexed f (S idx) rest
  end.

Definition instrumentCode (code : jsstring) : jsstring :=
  let lines := split nl code in
  let instrumented := mapIndexed instrumentLine 0 lines in
  join [nl] instrumented.

End Instrumenter.

Import Instrumenter.

(* ================================================================== *)
(** ** Values, thrown values and evaluated programs *)

Module Engine.

(** The values a program hands to the hooks: primitive values only.
    Numbers are restricted to integers; objects are left out, so
    converting or reading a value runs no code of the program. *)
Inductive jsval :=
| JUndefined
| JNull
| JBoolean (b : bool)
| JNumber (z : Z)
| JString (s : jsstring)
| JSymbol (description : jsstring).

(** What a [throw] carries: an [Error] object, whose [message] and
    [stack] are plain data properties, or a primitive value. *)
Inductive thrown :=
| ErrorObject (message stack : jsstring)
| ThrownValue (v : jsval).

Inductive completion :=
| Normal (v : jsval)
| Abrupt (e : thrown).

(** What the body of the sandboxed function does with the three names
    in its scope, [__track], [__captureVar] and [console]: a finite
    tree of hook calls, so a run that ends.  The program sees the
    engine through the hooks only; what it learns from them is what
    they throw, which [Try] hands to its handler.  [Try body handler k]
    stands for every construct that keeps a throw of [body] from
    leaving the function, followed by [k]:
    [try { body } catch (e) { handler e }], a [finally] clause, and
    also a Promise executor or the body of an async function, which
    turn the throw into a rejected promise. *)
Inductive behaviour :=
| Return (v : jsval)
| Throw (e : thrown)
| Track (lineNum : Z) (k : behaviour)
| CaptureVar (name : jsstring) (value : jsval) (k : behaviour)
| ConsoleLog (args : list jsval) (k : behaviour)
| Try (body : behaviour) (handler : thrown -> behaviour) (k : jsval -> behaviour).

(** The host: [new Function(...names, body)] applied to the context
    (a syntax error is a tree that throws at once), the text of the
    [stack] property of a new [Error], and the messages of the two
    [TypeError]s the engine can provoke. *)
Record jshost := {
  evalFunction : jsstring -> behaviour;
  errorStack : jsstring -> jsstring;
  symbolToStringMessage : jsstring;
  readOfNullishMessage : jsval -> jsstring
}.

Definition typeError (H : jshost) (message : jsstring) : thrown :=
  ErrorObject message (errorStack H message).

(* ================================================================== *)
(** ** Execution state and trace entries *)

Definition object := list (jsstring * jsval).

Inductive entryType := TLine | TVariable | TConsole | TError.

(** One element of [executionHistory]; every variant has [step] and
    [line]. *)
Inductive entry :=
| LineEntry (step : nat) (line : Z) (variables : object)
| VariableEntry (step : nat) (name : jsstring) (value : jsval) (line : Z)
| ConsoleEntry (step : nat) (output : jsstring) (line : Z)
| ErrorEntry (step : nat) (error : option jsstring) (line : Z).

Definition entry_type (e : entry) : entryType :=
  match e with
  | LineEntry _ _ _ => TLine
  | VariableEntry _ _ _ _ => TVariable
  | ConsoleEntry _ _ _ => TConsole
  | ErrorEntry _ _ _ => TError
  end.

Definition entry_step (e : entry) : nat :=
  match e with
  | LineEntry s _ _ | VariableEntry s _ _ _ | ConsoleEntry s _ _
  | ErrorEntry s _ _ => s
  end.

Definition entry_line (e : entry) : Z :=
  match e with
  | LineEntry _ l _ | VariableEntry _ _ _ l | ConsoleEntry _ _ l
  | ErrorEntry _ _ l => l
  end.

Definition isLineEntry (e : entry) : bool :=
  match e with LineEntry _ _ _ => true | _ => false end.

Record ExecutionState := mkState {
  currentLine : Z;
  variables : object;
  callStack : list jsval;
  executionHistory : list entry;
  breakpoints : list Z;
  isPaused : bool;
  step : nat
}.

Record engine := mkEngine {
  code : jsstring;
  language : jsstring;
  executionState : ExecutionState
}.

(** The object literal of the constructor and of [reset]. *)
Definition freshState : ExecutionState :=
  {| currentLine := 0; variables := []; callStack := [];
     executionHistory := []; breakpoints := []; isPaused := false;
     step := 0 |}.

Definition constructor : engine :=
  {| code := []; language := lit "javascript"; executionState := freshState |}.

Definition reset (eng : engine) : engine :=
  {| code := code eng; language := language eng; executionState := freshState |}.

Definition setCode (code' language' : jsstring) (eng : engine) : engine :=
  reset {| code := code'; language := language';
           executionState := executionState eng |}.

(** [Set.prototype.has], [add] and [delete] on line numbers; the list
    keeps insertion order and no duplicates. *)
Definition setHas (x : Z) (s : list Z) : bool := existsb (Z.eqb x) s.
Definition setAdd (x : Z) (s : list Z) : list Z :=
  if setHas x s then s else s ++ [x].
Definition setDelete (x : Z) (s : list Z) : list Z :=
  filter (fun y => negb (Z.eqb y x)) s.

Definition withState (eng : engine) (st : ExecutionState) : engine :=
  {| code := code eng; language := language eng; executionState := st |}.

Definition withBreakpoints (st : ExecutionState) (b : list Z) : ExecutionState :=
  {| currentLine := currentLine st; variables := variables st;
     callStack := callStack st; executionHistory := executionHistory st;
     breakpoints := b; isPaused := isPaused st; step := step st |}.

Definition withPaused (st : ExecutionState) (p : bool) : ExecutionState :=
  {| currentLine := currentLine st; variables := variables st;
     callStack := callStack st; executionHistory := executionHistory st;
     breakpoints := breakpoints st; isPaused := p; step := step st |}.

Definition addBreakpoint (lineNumber : Z) (eng : engine) : engine :=
  withState eng (withBreakpoints (executionState eng)
                   (setAdd lineNumber (breakpoints (executionState eng)))).

Definition removeBreakpoint (lineNumber : Z) (eng : engine) : engine :=
  withState eng (withBreakpoints (executionState eng)
                   (setDelete lineNumber (breakpoints (executionState eng)))).

(** [stepNext]: the body is one assignment and a comment. *)
Definition stepNext (eng : engine) : engine :=
  withState eng (withPaused (executionState eng) false).

(* ================================================================== *)
(** ** The execution context: the three hooks *)

(** [self.executionState.step++] on its own: the counter moves, the
    value before the increment is what the entry will carry. *)
Definition bumpStep (st : ExecutionState) : nat * ExecutionState :=
  (step st,
   {| currentLine := currentLine st; variables := variables st;
      callStack := callStack st; executionHistory := executionHistory st;
      breakpoints := breakpoints st; isPaused := isPaused st;
      step := S (step st) |}).

(** [self.executionState.executionHistory.push(e)]. *)
Definition pushEntry (e : entry) (st : ExecutionState) : ExecutionState :=
  {| currentLine := currentLine st; variables := variables st;
     callStack := callStack st;
     executionHistory := executionHistory st ++ [e];
     breakpoints := breakpoints st; isPaused := isPaused st;
     step := step st |}.

Definition withCurrentLine (st : ExecutionState) (l : Z) : ExecutionState :=
  {| currentLine := l; variables := variables st;
     callStack := callStack st; executionHistory := executionHistory st;
     breakpoints := breakpoints st; isPaused := isPaused st;
     step := step st |}.

Definition withVariables (st : ExecutionState) (o : object) : ExecutionState :=
  {| currentLine := currentLine st; variables := o;
     callStack := callStack st; executionHistory := executionHistory st;
     breakpoints := breakpoints st; isPaused := isPaused st;
     step := step st |}.

(** [o[name] = value] on a plain object.  (Under the name __proto__
    the assignment reaches the setter of the prototype and creates no
    property; what is proved of [variables] leaves that name aside.) *)
Fixpoint setProperty (name : jsstring) (value : jsval) (o : object) : object :=
  match o with
  | [] => [(name, value)]
  | (k, v) :: rest =>
      if string_eqb k name then (k, value) :: rest
      else (k, v) :: setProperty name value rest
  end.

Definition breakpointMessage (lineNum : Z) : jsstring :=
  lit "BREAKPOINT at line " ++ numberToString lineNum.

(** [__track]. *)
Definition __track (H : jshost) (lineNum : Z) (st : ExecutionState)
    : completion * ExecutionState :=
  let st1 := withCurrentLine st lineNum in
  let '(s, st2) := bumpStep st1 in
  let st3 := pushEntry (LineEntry s lineNum (variables st2)) st2 in
  if setHas lineNum (breakpoints st3) then
    (Abrupt (ErrorObject (breakpointMessage lineNum)
               (errorStack H (breakpointMessage lineNum))),
     withPaused st3 true)
  else (Normal JUndefined, st3).

(** [__captureVar]. *)
Definition __captureVar (name : jsstring) (value : jsval) (st : ExecutionState)
    : completion * ExecutionState :=
  let st1 := withVariables st (setProperty name value (variables st)) in
  let '(s, st2) := bumpStep st1 in
  (Normal value, pushEntry (VariableEntry s name value (currentLine st2)) st2).

(** The element conversion of [Array.prototype.join]: [undefined] and
    [null] print as nothing, a symbol cannot be converted. *)
Definition joinElement (v : jsval) : option jsstring :=
  match v with
  | JUndefined | JNull => Some []
  | JBoolean true => Some (lit "true")
  | JBoolean false => Some (lit "false")
  | JNumber z => Some (numberToString z)
  | JString s => Some s
  | JSymbol _ => None
  end.

Fixpoint joinElements (args : list jsval) : option (list jsstring) :=
  match args with
  | [] => Some []
  | v :: rest =>
      match joinElement v with
      | None => None
      | Some s =>
          match joinElements rest with
          | None => None
          | Some ss => Some (s :: ss)
          end
      end
  end.

(** [args.join(' ')]; [None] when the conversion throws. *)
Definition joinArgs (args : list jsval) : option jsstring :=
  option_map (join (lit " ")) (joinElements args).

(** [console.log].  The properties of the entry are evaluated in
    source order: [step++] comes before [args.join(' ')].  The
    arguments being primitive values, [join] calls no hook. *)
Definition consoleLog (H : jshost) (args : list jsval) (st : ExecutionState)
    : completion * ExecutionState :=
  let '(s, st1) := bumpStep st in
  match joinArgs args with
  | None => (Abrupt (typeError H (symbolToStringMessage H)), st1)
  | Some output =>
      (Normal JUndefined, pushEntry (ConsoleEntry s output (currentLine st1)) st1)
  end.

(** [executeInstrumented]: the function body runs against the hooks. *)
Fixpoint run (H : jshost) (p : behaviour) (st : ExecutionState)
    : completion * ExecutionState :=
  match p with
  | Return v => (Normal v, st)
  | Throw e => (Abrupt e, st)
  | Track lineNum k =>
      match __track H lineNum st with
      | (Normal _, st1) => run H k st1
      | (Abrupt e, st1) => (Abrupt e, st1)
      end
  | CaptureVar name value k =>
      match __captureVar name value st with
      | (Normal _, st1) => run H k st1
      | (Abrupt e, st1) => (Abrupt e, st1)
      end
  | ConsoleLog args k =>
      match consoleLog H args st with
      | (Normal _, st1) => run H k st1
      | (Abrupt e, st1) => (Abrupt e, st1)
      end
  | Try body handler k =>
      match run H body st with
      | (Normal v, st1) => run H (k v) st1
      | (Abrupt e, st1) =>
          match run H (handler e) st1 with
          | (Normal v, st2) => run H (k v) st2
          | (Abrupt e', st2) => (Abrupt e', st2)
          end
      end
  end.

(** The directive prologue placed before the code: the text
    use strict between double quotes, a semicolon and a space. *)
Definition useStrict : jsstring :=
  [34%N] ++ lit "use strict" ++ [34%N] ++ lit "; ".

Definition executeInstrumented (H : jshost) (code : jsstring)
    (st : ExecutionState) : completion * ExecutionState :=
  run H (evalFunction H (useStrict ++ code)) st.

(** What the promise of [execute] settles to.  [state] is the engine's
    own state object, not a copy. *)
Inductive execResult :=
| Success (result : jsval) (state : ExecutionState)
| Failure (error stack : option jsstring) (state : ExecutionState)
| Rejected (reason : thrown).

Definition unsupportedMessage : jsstring :=
  lit "Only JavaScript execution is supported in browser".

(** [error.message] and [error.stack] in the [catch] clause; reading a
    property of [null] or [undefined] throws, any other primitive has
    neither property, and an [Error] object gives its data property:
    the read calls no hook. *)
Definition errorMessage (H : jshost) (e : thrown) : thrown + option jsstring :=
  match e with
  | ErrorObject message _ => inr (Some message)
  | ThrownValue JUndefined => inl (typeError H (readOfNullishMessage H JUndefined))
  | ThrownValue JNull => inl (typeError H (readOfNullishMessage H JNull))
  | ThrownValue _ => inr None
  end.

Definition errorStackOf (e : thrown) : option jsstring :=
  match e with
  | ErrorObject _ stack => Some stack
  | ThrownValue _ => None
  end.

(** [execute].  In the [catch] clause the entry's [step] property
    ([step++]) is evaluated before its [error] property. *)
Definition execute (H : jshost) (eng : engine) : execResult * engine :=
  if negb (string_eqb (language eng) (lit "javascript")) then
    (Failure (Some unsupportedMessage) None (executionState eng), eng)
  else
    let instrumentedCode := instrumentCode (code eng) in
    match executeInstrumented H instrumentedCode (executionState eng) with
    | (Normal result, st) => (Success result st, withState eng st)
    | (Abrupt error, st) =>
        let '(s, st1) := bumpStep st in
        match errorMessage H error with
        | inl typeErr => (Rejected typeErr, withState eng st1)
        | inr message =>
            let st2 := pushEntry (ErrorEntry s message (currentLine st1)) st1 in
            (Failure message (errorStackOf error) st2, withState eng st2)
        end
    end.

(* ================================================================== *)
(** ** Flow graph *)

Inductive nodeType :=
| NFunction | NConditional | NLoop | NReturn | NAssignment | NStatement.

Definition getNodeType (code : jsstring) : nodeType :=
  if startsWith code (lit "function") || includes code (lit "=>") then NFunction
  else if startsWith code (lit "if") || startsWith code (lit "else") then NConditional
  else if startsWith code (lit "for") || startsWith code (lit "while") then NLoop
  else if startsWith code (lit "return") then NReturn
  else if includes code (lit "=") && negb (includes code (lit "==")) then NAssignment
  else NStatement.

Record flowNode := mkNode {
  node_id : Z;
  node_line : Z;
  node_code : jsstring;
  node_type : nodeType;
  node_executed : bool
}.

Record flowEdge := mkEdge { edge_from : Z; edge_to : Z }.

Record flowGraph := mkFlow { nodes : list flowNode; edges : list flowEdge }.

(** [executionHistory.some(h => h.line === lineNum)]. *)
Definition lineInHistory (st : ExecutionState) (lineNum : Z) : bool :=
  existsb (fun h => Z.eqb (entry_line h) lineNum) (executionHistory st).

(** One call of the [forEach] callback of [getExecutionFlow]. *)
Definition flowStep (st : ExecutionState) (idx : nat) (line : jsstring)
    (flow : flowGraph) : flowGraph :=
  let lineNum := (Z.of_nat idx + 1)%Z in
  let trimmed := trim line in
  if isEmpty trimmed then flow
  else
    let node := {| node_id := lineNum; node_line := lineNum;
                   node_code := trimmed; node_type := getNodeType trimmed;
                   node_executed := lineInHistory st lineNum |} in
    let flow1 := {| nodes := nodes flow ++ [node]; edges := edges flow |} in
    if (0 <? idx)%nat && negb (startsWith trimmed (lit "}"))
       && negb (startsWith trimmed (lit "else"))
    then {| nodes := nodes flow1;
            edges := edges flow1 ++ [{| edge_from := Z.of_nat idx; edge_to := lineNum |}] |}
    else flow1.

Fixpoint flowLoop (st : ExecutionState) (idx : nat) (codeLines : list jsstring)
    (flow : flowGraph) : flowGraph :=
  match codeLines with
  | [] => flow
  | line :: rest => flowLoop st (S idx) rest (flowStep st idx line flow)
  end.

Definition getExecutionFlow (eng : engine) : flowGraph :=
  flowLoop (executionState eng) 0 (split nl (code eng))
           {| nodes := []; edges := [] |}.

(* ================================================================== *)
(** ** Performance analysis *)

(** [lineExecutionCounts]: a plain object keyed by line number, kept
    here in insertion order. *)
Definition counts := list (Z * nat).

Fixpoint lookupCount (line : Z) (o : counts) : option nat :=
  match o with
  | [] => None
  | (k, c) :: rest => if Z.eqb k line then Some c else lookupCount line rest
  end.

Fixpoint storeCount (line : Z) (c : nat) (o : counts) : counts :=
  match o with
  | [] => [(line, c)]
  | (k, c') :: rest =>
      if Z.eqb k line then (k, c) :: rest else (k, c') :: storeCount line c rest
  end.

(** [(lineExecutionCounts[line] || 0) + 1], stored back. *)
Definition countVisit (o : counts) (e : entry) : counts :=
  match e with
  | LineEntry _ line _ =>
      let old := match lookupCount line o with Some c => c | None => 0%nat end in
      storeCount line (old + 1) o
  | _ => o
  end.

Definition lineExecutionCounts (history : list entry) : counts :=
  fold_left countVisit history [].

(** Property order of [Object.entries]: keys that are array indices in
    ascending order, then the other keys in insertion order. *)
Definition isArrayIndex (k : Z) : bool :=
  ((0 <=? k) && (k <? 2 ^ 32 - 1))%Z.

Fixpoint insertByKey (e : Z * nat) (l : counts) : counts :=
  match l with
  | [] => [e]
  | x :: rest =>
      if (fst e <=? fst x)%Z then e :: l else x :: insertByKey e rest
  end.

Definition objectEntries (o : counts) : counts :=
  fold_right insertByKey [] (filter (fun e => isArrayIndex (fst e)) o)
  ++ filter (fun e => negb (isArrayIndex (fst e))) o.

(** [.sort((a, b) => b[1] - a[1])]: a stable sort, larger counts first. *)
Fixpoint insertByCount (e : Z * nat) (l : counts) : counts :=
  match l with
  | [] => [e]
  | x :: rest =>
      if (snd e <? snd x)%nat then x :: insertByCount e rest else e :: l
  end.

Definition sortByCount (l : counts) : counts := fold_right insertByCount [] l.

Record hotspot := mkHotspot {
  hot_line : Z;
  executionCount : nat;
  hot_code : option jsstring
}.

(** [this.code.split('\n')[line - 1]]; [None] is [undefined]. *)
Definition sourceLine (code : jsstring) (line : Z) : option jsstring :=
  if (0 <=? line - 1)%Z then nth_error (split nl code) (Z.to_nat (line - 1))
  else None.

Record performance := mkPerformance {
  totalSteps : nat;
  hotspots : list hotspot;
  avgStepsPerLine : Q
}.

(** [avgStepsPerLine] is a quotient of two counts, kept exact. *)
Definition analyzePerformance (eng : engine) : performance :=
  let st := executionState eng in
  let lineCounts := lineExecutionCounts (executionHistory st) in
  let hot :=
    map (fun e => {| hot_line := fst e; executionCount := snd e;
                     hot_code := sourceLine (code eng) (fst e) |})
        (sortByCount (filter (fun e => (10 <? snd e)%nat) (objectEntries lineCounts))) in
  {| totalSteps := step st;
     hotspots := hot;
     avgStepsPerLine :=
       (inject_Z (Z.of_nat (step st))
        / inject_Z (Z.of_nat (List.length (split nl (code eng)))))%Q |}.

End Engine.

Import Engine.


(* ================================================================== *)
(** ** Notions the properties are stated with *)

Definition javascript : jsstring := lit "javascript".

(** Number of line-visit entries for line [L]. *)
Definition lineVisits (L : Z) (history : list entry) : nat :=
  List.length (filter (fun e => isLineEntry e && Z.eqb (entry_line e) L) history).

(** Line of the most recent line-visit entry. *)
Definition lastLineVisit (history : list entry) : option Z :=
  option_map entry_line (find isLineEntry (rev history)).




(** Every [console.log] of the program gets primitive values that
    [join] can print: no symbol among them. *)
Fixpoint printable (p : behaviour) : Prop :=
  match p with
  | Return _ | Throw _ => True
  | Track _ k | CaptureVar _ _ k => printable k
  | ConsoleLog args k => joinArgs args <> None /\ printable k
  | Try body handler k =>
      printable body /\ (forall e, printable (handler e)) /\ (forall v, printable (k v))
  end.

(** The engines a caller can obtain through the public operations. *)
Inductive reachable : engine -> Prop :=
| reach_constructor : reachable constructor
| reach_setCode c l eng : reachable eng -> reachable (setCode c l eng)
| reach_reset eng : reachable eng -> reachable (reset eng)
| reach_addBreakpoint n eng : reachable eng -> reachable (addBreakpoint n eng)
| reach_removeBreakpoint n eng : reachable eng -> reachable (removeBreakpoint n eng)
| reach_stepNext eng : reachable eng -> reachable (stepNext eng)
| reach_execute H eng : reachable eng -> reachable (snd (execute H eng)).

(** The edge [getExecutionFlow] gives a node, if any: from the line
    right above it. *)
Definition incomingEdge (n : flowNode) : list flowEdge :=
  if (1 <? node_line n)%Z && negb (startsWith (node_code n) (lit "}"))
     && negb (startsWith (node_code n) (lit "else"))
  then [{| edge_from := node_line n - 1; edge_to := node_line n |}]
  else [].

(* ================================================================== *)
(** ** Sample programs and hosts *)

Definition unlines (lines : list jsstring) : jsstring := join [nl] lines.

(** A host that knows one function body, [text], whose calls to the
    hooks are [p]; any other text is refused as a syntax error. *)
Definition hostFor (text : jsstring) (p : behaviour) : jshost :=
  {| evalFunction := fun body =>
       if string_eqb body (useStrict ++ text) then p
       else Throw (ErrorObject (lit "Unexpected token")
                    (lit "SyntaxError: Unexpected token"));
     errorStack := fun message => lit "Error: " ++ message;
     symbolToStringMessage := lit "Cannot convert a Symbol value to a string";
     readOfNullishMessage := fun _ => lit "Cannot read properties of null" |}.

(** A one-line program. *)
Definition oneLiner : jsstring := lit "1;".
Definition oneLinerHost : jshost :=
  hostFor (lit "__track(1); 1;") (Track 1 (Return JUndefined)).

(** The engine after one run of the one-line program, and the node
    of its only line. *)
Definition ranOneLiner : engine :=
  snd (execute oneLinerHost (setCode oneLiner javascript constructor)).
Definition ranOneLinerNode : flowNode :=
  {| node_id := 1; node_line := 1; node_code := lit "1;";
     node_type := NStatement; node_executed := true |}.



(** A program that logs a symbol. *)
Definition symbolLogger : jsstring := lit "console.log(Symbol());".
Definition symbolLoggerHost : jshost :=
  hostFor (lit "__track(1); console.log(Symbol());")
          (Track 1 (ConsoleLog [JSymbol []] (Return JUndefined))).

(** Three lines, the middle one blank. *)
Definition gapped : jsstring := unlines [lit "a();"; []; lit "b();"].

(** The keys of the tally, the count stored for a line (0 when there
    is none), and the order [sort] leaves the entries in. *)
Definition keys (o : counts) : list Z := map fst o.

Definition countOf (L : Z) (o : counts) : nat :=
  match lookupCount L o with Some c => c | None => 0%nat end.

Definition byCountDesc (a b : Z * nat) : Prop := (snd b <= snd a)%nat.

(** Some line-visit entry of the history has line [l]. *)
Definition lineVisited (st : ExecutionState) (l : Z) : Prop :=
  exists s vars, In (LineEntry s l vars) (executionHistory st).

(** Where the [line] of an entry comes from: it is 0, the line a state
    starts on, or the line of a line-visit entry; the same for
    [currentLine]. *)
Definition traceInv (st : ExecutionState) : Prop :=
  (currentLine st = 0%Z \/ lineVisited st (currentLine st)) /\
  forall h, In h (executionHistory st) ->
            entry_line h = 0%Z \/ lineVisited st (entry_line h).

(** The step counter is the length of the history, and the entries
    carry the steps 0, 1, 2, ... in order. *)
Definition stepInv (st : ExecutionState) : Prop :=
  step st = List.length (executionHistory st) /\
  map entry_step (executionHistory st) = seq 0 (List.length (executionHistory st)).

(** A program that throws [null]. *)
Definition nullThrower : jsstring := lit "throw null;".
Definition nullThrowerHost : jshost :=
  hostFor (lit "__track(1); throw null;") (Track 1 (Throw (ThrownValue JNull))).

(** The run does not end by throwing [null] or [undefined], the two
    values whose [message] cannot be read. *)
Definition readable (c : completion) : Prop :=
  match c with
  | Abrupt (ThrownValue JNull) | Abrupt (ThrownValue JUndefined) => False
  | _ => True
  end.

(** Eleven visits to line 5, as a loop body leaves them. *)
Definition loopTrace : list entry :=
  map (fun s => LineEntry s 5 []) (seq 0 11).

Definition hotEngine : engine :=
  {| code := lit "for (;;) {"; language := javascript;
     executionState :=
       {| currentLine := 5; variables := []; callStack := [];
          executionHistory := loopTrace; breakpoints := []; isPaused := false;
          step := 11 |} |}.

(* ================================================================== *)
(** ** Trace queries *)

Record variableState := mkVariableState {
  vs_step : nat;
  vs_line : Z;
  vs_variable : jsstring;
  vs_value : jsval
}.

(** The [forEach] of [getVariableStates]: the variable entries, in
    order. *)
Fixpoint variableStatesOf (history : list entry) : list variableState :=
  match history with
  | [] => []
  | VariableEntry s name value line :: rest =>
      {| vs_step := s; vs_line := line; vs_variable := name; vs_value := value |}
      :: variableStatesOf rest
  | _ :: rest => variableStatesOf rest
  end.

Definition getVariableStates (eng : engine) : list variableState :=
  variableStatesOf (executionHistory (executionState eng)).

(** [e.type === 'error' || e.type === 'warning']; the engine writes no
    entry of type warning. *)
Definition isErrorOrWarning (e : entry) : bool :=
  match entry_type e with TError => true | _ => false end.

Definition getErrorTimeline (eng : engine) : list entry :=
  filter isErrorOrWarning (executionHistory (executionState eng)).

(** The own property [name] of a plain object. *)
Fixpoint getOwnProperty (name : jsstring) (o : object) : option jsval :=
  match o with
  | [] => None
  | (k, v) :: rest => if string_eqb k name then Some v else getOwnProperty name rest
  end.


(** What [execute] leaves of the state it starts from. *)
Definition extends (st0 st : ExecutionState) : Prop :=
  breakpoints st = breakpoints st0 /\
  callStack st = callStack st0 /\
  (exists l, executionHistory st = executionHistory st0 ++ l) /\
  (step st0 <= step st)%nat /\
  (isPaused st0 = true -> isPaused st = true).

(** [currentLine] is the line of the last line-visit entry, 0 when
    there is none. *)
Definition currentLineInv (st : ExecutionState) : Prop :=
  currentLine st = match lastLineVisit (executionHistory st) with
                   | Some L => L
                   | None => 0%Z
                   end.

(** No two entries carry the same step, every stored step was handed
    out by the counter, and the history is no longer than the counter. *)
Definition stepsBelowCounter (st : ExecutionState) : Prop :=
  NoDup (map entry_step (executionHistory st)) /\
  Forall (fun s => (s < step st)%nat) (map entry_step (executionHistory st)) /\
  (List.length (executionHistory st) <= step st)%nat.



(** A program that captures twice under one name. *)
Definition recapture : jsstring :=
  unlines [lit "let x = __captureVar('x', 1);"; lit "x = __captureVar('x', 2);"].
Definition recaptureHost : jshost :=
  hostFor
    (unlines [lit "__track(1); let x = __captureVar('x', 1);";
              lit "__track(2); x = __captureVar('x', 2);"])
    (Track 1 (CaptureVar (lit "x") (JNumber 1)
       (Track 2 (CaptureVar (lit "x") (JNumber 2) (Return JUndefined))))).
Definition ranRecapture : engine :=
  snd (execute recaptureHost (setCode recapture javascript constructor)).



(* ================================================================== *)
(** ** Notions for the flow graph and the instrumenter *)

(** The non-blank lines of a source, each with its 1-based number and
    its trimmed text, counting from [idx]. *)
Fixpoint nonBlankLines (idx : nat) (lines : list jsstring) : list (Z * jsstring) :=
  match lines with
  | [] => []
  | line :: rest =>
      if isEmpty (trim line) then nonBlankLines (S idx) rest
      else (Z.of_nat idx + 1, trim line)%Z :: nonBlankLines (S idx) rest
  end.

(** The node [getExecutionFlow] makes for a numbered, trimmed line. *)
Definition nodeFor (st : ExecutionState) (l : Z * jsstring) : flowNode :=
  {| node_id := fst l; node_line := fst l; node_code := snd l;
     node_type := getNodeType (snd l);
     node_executed := lineInHistory st (fst l) |}.

(** A node without its executed flag. *)
Definition nodeShape (n : flowNode) : Z * Z * jsstring * nodeType :=
  (node_id n, node_line n, node_code n, node_type n).

(** The line gets a tracking call. *)
Definition isTracked (line : jsstring) : bool :=
  negb (isEmpty (trim line) || startsWith (trim line) commentMarker).

(* ================================================================== *)
(** ** The order of the hotspot list *)

(** Of two tally entries with array-index keys, the first has the
    smaller key. *)
Definition keyOrder (a b : Z * nat) : Prop :=
  isArrayIndex (fst a) = true -> isArrayIndex (fst b) = true -> (fst a < fst b)%Z.

(** Larger count first; with equal counts, in key order. *)
Definition countThenKey (a b : Z * nat) : Prop :=
  (snd b < snd a)%nat \/ (snd b = snd a /\ keyOrder a b).

Definition hotspotOrder (a b : hotspot) : Prop :=
  (executionCount b < executionCount a)%nat \/
  (executionCount b = executionCount a /\
   (isArrayIndex (hot_line a) = true -> isArrayIndex (hot_line b) = true ->
    (hot_line a < hot_line b)%Z)).

(** Lines 7 and 3 visited twelve times each, 7 first. *)
Definition tiedTrace : list entry :=
  map (fun s => LineEntry s (if Nat.even s then 7 else 3) []) (seq 0 24).

Definition tiedEngine : engine :=
  {| code := lit "for (;;) {"; language := javascript;
     executionState :=
       {| currentLine := 3; variables := []; callStack := [];
          executionHistory := tiedTrace; breakpoints := []; isPaused := false;
          step := 24 |} |}.

(* ================================================================== *)
(** * CodeBERTAnalyzer (src/js/codeBertAnalyzer.js): the helpers that
      post-process the issue list and measure the code *)

Module Analyzer.

(** An issue as the analysis passes build it; [type], [severity] and
    [confidence] are not set by every pass. *)
Record issue := mkIssue {
  issue_type : option jsstring;
  issue_line : Z;
  issue_message : jsstring;
  issue_severity : option jsstring;
  issue_confidence : option Q
}.

Definition colon : N := 58%N.

(** The template of the key: line, a colon, the message. *)
Definition issueKey (i : issue) : jsstring :=
  numberToString (issue_line i) ++ [colon] ++ issue_message i.

(** [seen.has(key)] on a set of strings. *)
Definition seenHas (key : jsstring) (seen : list jsstring) : bool :=
  existsb (string_eqb key) seen.

(** The [filter] of [deduplicateIssues], with the set it fills. *)
Fixpoint deduplicateFrom (seen : list jsstring) (issues : list issue) : list issue :=
  match issues with
  | [] => []
  | i :: rest =>
      let key := issueKey i in
      if seenHas key seen then deduplicateFrom seen rest
      else i :: deduplicateFrom (seen ++ [key]) rest
  end.

Definition deduplicateIssues (issues : list issue) : list issue :=
  deduplicateFrom [] issues.

(** [i.severity === s] and [i.type === t]. *)
Definition hasSeverity (s : jsstring) (i : issue) : bool :=
  match issue_severity i with Some x => string_eqb x s | None => false end.

Definition hasType (t : jsstring) (i : issue) : bool :=
  match issue_type i with Some x => string_eqb x t | None => false end.

Record summary := mkSummary {
  total : nat;
  critical : nat;
  high : nat;
  medium : nat;
  low : nat;
  security : nat;
  errors : nat;
  message : jsstring
}.

Definition natToString (n : nat) : jsstring := numberToString (Z.of_nat n).

(** The check mark (U+2713) and the text after it. *)
Definition noIssuesMessage : jsstring :=
  [10003%N] ++ lit " No issues detected! Code looks good.".

Definition generateSummary (issues : list issue) : summary :=
  let criticalCount := List.length (filter (hasSeverity (lit "critical")) issues) in
  let highCount := List.length (filter (hasSeverity (lit "high")) issues) in
  let mediumCount := List.length (filter (hasSeverity (lit "medium")) issues) in
  let lowCount := List.length (filter (hasSeverity (lit "low")) issues) in
  let securityCount := List.length (filter (hasType (lit "security")) issues) in
  let errorCount := List.length (filter (hasType (lit "error")) issues) in
  {| total := List.length issues;
     critical := criticalCount;
     high := highCount;
     medium := mediumCount;
     low := lowCount;
     security := securityCount;
     errors := errorCount;
     message :=
       if Nat.eqb (List.length issues) 0 then noIssuesMessage
       else lit "Found " ++ natToString (List.length issues) ++ lit " issue(s): "
            ++ natToString criticalCount ++ lit " critical, "
            ++ natToString highCount ++ lit " high, "
            ++ natToString mediumCount ++ lit " medium, "
            ++ natToString lowCount ++ lit " low" |}.

(** *** Cyclomatic complexity *)

(** A word character of a regular expression: a letter, a digit or
    the underscore. *)
Definition isWordChar (c : N) : bool :=
  ((97 <=? c) && (c <=? 122) || (65 <=? c) && (c <=? 90)
   || (48 <=? c) && (c <=? 57) || (c =? 95))%N.

Definition isWordAt (c : option N) : bool :=
  match c with Some x => isWordChar x | None => false end.

(** The assertion \b between two neighbouring positions. *)
Definition wordBoundary (before after : option N) : bool :=
  xorb (isWordAt before) (isWordAt after).

(** Does \bkeyword\b match where [s] starts, [prev] being the unit
    before it? *)
Definition matchesWord (keyword : jsstring) (prev : option N) (s : jsstring) : bool :=
  wordBoundary prev (nth_error s 0)
  && startsWith s keyword
  && wordBoundary (nth_error s (List.length keyword - 1))
                  (nth_error s (List.length keyword)).

(** Does the escaped operator, a literal text, match where [s]
    starts? *)
Definition matchesLiteral (operator : jsstring) (prev : option N) (s : jsstring) : bool :=
  startsWith s operator.

(** The number of matches [code.match(pattern)] returns for a global
    pattern that matches [len] units at a time: the leftmost match,
    then the leftmost match after its end, and so on.  [skip] counts
    the units still inside the last match. *)
Fixpoint countMatches (matchesAt : option N -> jsstring -> bool) (len : nat)
    (skip : nat) (prev : option N) (s : jsstring) : nat :=
  match s with
  | [] => 0
  | c :: rest =>
      match skip with
      | S k => countMatches matchesAt len k (Some c) rest
      | O =>
          if matchesAt prev s
          then S (countMatches matchesAt len (len - 1) (Some c) rest)
          else countMatches matchesAt len 0 (Some c) rest
      end
  end.

Definition keywords : list jsstring :=
  [lit "if"; lit "else"; lit "for"; lit "while"; lit "case"; lit "catch"].

Definition operators : list jsstring := [lit "&&"; lit "||"; lit "?"].

Definition countKeyword (code keyword : jsstring) : nat :=
  countMatches (matchesWord keyword) (List.length keyword) 0 None code.

Definition countOperator (code operator : jsstring) : nat :=
  countMatches (matchesLiteral operator) (List.length operator) 0 None code.

Definition calculateCyclomaticComplexity (code : jsstring) : nat :=
  let complexity := 1%nat in
  let complexity :=
    fold_left (fun acc keyword => (acc + countKeyword code keyword)%nat)
              keywords complexity in
  fold_left (fun acc operator => (acc + countOperator code operator)%nat)
            operators complexity.

(** *** Metrics *)

Definition isNonEmptyLine (l : jsstring) : bool :=
  (0 <? List.length (trim l))%nat.

Definition isCommentLine (l : jsstring) : bool :=
  let trimmed := trim l in
  startsWith trimmed (lit "//") || startsWith trimmed (lit "/*")
  || startsWith trimmed (lit "*").

(** [a / b] on two counts: the quotient, kept exact; [None] when [b]
    is 0, where the code gets NaN or Infinity. *)
Definition divideCounts (a b : nat) : option Q :=
  if Nat.eqb b 0 then None
  else Some (inject_Z (Z.of_nat a) / inject_Z (Z.of_nat b))%Q.

Record metrics := mkMetrics {
  totalLines : nat;
  codeLines : Z;
  commentLines : nat;
  blankLines : Z;
  complexity : nat;
  commentRatio : option Q
}.

Definition calculateMetrics (code : jsstring) : metrics :=
  let lines := split nl code in
  let nonEmptyLines := List.length (filter isNonEmptyLine lines) in
  let commentLines := List.length (filter isCommentLine lines) in
  {| totalLines := List.length lines;
     codeLines := Z.of_nat nonEmptyLines - Z.of_nat commentLines;
     commentLines := commentLines;
     blankLines := Z.of_nat (List.length lines) - Z.of_nat nonEmptyLines;
     complexity := calculateCyclomaticComplexity code;
     commentRatio := divideCounts commentLines (Nat.max nonEmptyLines 1) |}.

(** *** extractFunctionBody *)

Definition openBrace : N := 123%N.
Definition closeBrace : N := 125%N.

(** The [for] loop over the units from [startIndex] on, with its two
    variables; the result is what [body] collects. *)
Fixpoint extractLoop (depth : Z) (inFunction : bool) (s : jsstring) : jsstring :=
  match s with
  | [] => []
  | char :: rest =>
      if N.eqb char openBrace then
        char :: extractLoop (depth + 1) true rest
      else if N.eqb char closeBrace then
        if Z.eqb (depth - 1) 0 && inFunction then []
        else if inFunction then char :: extractLoop (depth - 1) inFunction rest
        else extractLoop (depth - 1) inFunction rest
      else
        if inFunction then char :: extractLoop depth inFunction rest
        else extractLoop depth inFunction rest
  end.

Definition extractFunctionBody (code : jsstring) (startIndex : nat) : jsstring :=
  extractLoop 0 false (skipn startIndex code).

End Analyzer.

Import Analyzer.

(* ================================================================== *)
(** ** Notions for the analyzer helpers *)

(** [l1] is [l2] with some elements left out. *)
Inductive subsequence {A : Type} : list A -> list A -> Prop :=
| subsequence_nil : subsequence [] []
| subsequence_keep x l1 l2 : subsequence l1 l2 -> subsequence (x :: l1) (x :: l2)
| subsequence_drop x l1 l2 : subsequence l1 l2 -> subsequence l1 (x :: l2).

(** What [deduplicateIssues] compares issues by. *)
Definition lineAndMessage (i : issue) : Z * jsstring :=
  (issue_line i, issue_message i).

Definition sampleIssues : list issue :=
  [ mkIssue (Some (lit "warning")) 3 (lit "Variable 'x' may be unused")
            (Some (lit "low")) None;
    mkIssue (Some (lit "security")) 7 (lit "eval() usage detected")
            (Some (lit "critical")) None;
    mkIssue None 3 (lit "Variable 'x' may be unused") None (Some (1 # 2)%Q) ].

(** The severity is one of the four the summary counts. *)
Definition knownSeverity (i : issue) : bool :=
  hasSeverity (lit "critical") i || hasSeverity (lit "high") i
  || hasSeverity (lit "medium") i || hasSeverity (lit "low") i.

(** Opening braces minus closing braces. *)
Fixpoint balance (s : jsstring) : Z :=
  match s with
  | [] => 0
  | c :: rest =>
      (if N.eqb c openBrace then 1 else if N.eqb c closeBrace then -1 else 0)
      + balance rest
  end%Z.

Definition isPrefix (q r : jsstring) : Prop := exists t, r = q ++ t.

(** A function whose body holds a nested block, and text after it. *)
Definition nestedFunction : jsstring :=
  lit "function f(a) { if (a) { g(); } } h();".
(* ================================================================== *)
(** * Properties *)

(** ** Host strings *)

Lemma string_eqb_eq (a b : jsstring) : string_eqb a b = true <-> a = b.
Proof.
  revert b; induction a as [|x a IH]; intros [|y b]; simpl; split;
    try congruence; try reflexivity.
  - intros Hab. apply andb_true_iff in Hab as [Hx Hab].
    apply N.eqb_eq in Hx. apply IH in Hab. congruence.
  - intros [= -> ->]. rewrite N.eqb_refl. now apply IH.
Qed.

Section SplitJoin.

Variable sep : N.

Lemma split_not_nil (s : jsstring) : split sep s <> [].
Proof.
  destruct s as [|c rest]; simpl; [discriminate|].
  destruct (N.eqb c sep); [discriminate|].
  destruct (split sep rest); discriminate.
Qed.

Lemma split_pieces_free (s : jsstring) :
  Forall (fun piece => ~ In sep piece) (split sep s).
Proof.
  induction s as [|c rest IH]; simpl.
  - constructor; [intros []|constructor].
  - destruct (N.eqb_spec c sep) as [->|Hc].
    + constructor; [intros []|exact IH].
    + destruct (split sep rest) as [|piece pieces].
      * constructor; [|constructor]. intros [E|[]]. congruence.
      * inversion IH as [|? ? Hp Hps]; subst.
        constructor; [|exact Hps]. intros [E|E]; [congruence|auto].
Qed.

Lemma split_app_free (p rest : jsstring) :
  ~ In sep p ->
  split sep (p ++ sep :: rest) = p :: split sep rest.
Proof.
  induction p as [|c p IH]; simpl; intros Hfree.
  - now rewrite N.eqb_refl.
  - destruct (N.eqb_spec c sep) as [->|Hc]; [exfalso; auto|].
    rewrite IH by auto. reflexivity.
Qed.

Lemma split_free (p : jsstring) : ~ In sep p -> split sep p = [p].
Proof.
  induction p as [|c p IH]; simpl; intros Hfree; [reflexivity|].
  destruct (N.eqb_spec c sep) as [->|Hc]; [exfalso; auto|].
  rewrite IH by auto. reflexivity.
Qed.

(** Splitting what [join] glued gives the pieces back, as long as no
    piece holds the separator. *)
Lemma split_join (pieces : list jsstring) :
  pieces <> [] ->
  Forall (fun piece => ~ In sep piece) pieces ->
  split sep (join [sep] pieces) = pieces.
Proof.
  induction pieces as [|p rest IH]; [congruence|].
  intros _ Hfree. inversion Hfree as [|? ? Hp Hrest]; subst.
  destruct rest as [|q rest'].
  - simpl. now apply split_free.
  - change (join [sep] (p :: q :: rest')) with (p ++ sep :: join [sep] (q :: rest')).
    rewrite split_app_free by exact Hp.
    f_equal. apply IH; [discriminate|exact Hrest].
Qed.

End SplitJoin.

Lemma digits_free_of_nl (d : Decimal.uint) :
  ~ In nl (lit (NilEmpty.string_of_uint d)).
Proof.
  induction d; simpl; [intros []|..];
    (intros [E|E]; [discriminate E|auto]).
Qed.

Lemma numberToString_free_of_nl (z : Z) : ~ In nl (numberToString z).
Proof.
  unfold numberToString, NilZero.string_of_int.
  destruct (Z.to_int z) as [d|d]; unfold NilZero.string_of_uint.
  - destruct d; try apply digits_free_of_nl.
    simpl. intros [E|[]]. discriminate E.
  - intros [E|E]; [discriminate E|].
    destruct d; try (now apply (digits_free_of_nl _ E)).
    destruct E as [E|[]]. discriminate E.
Qed.

(** ** Instrumenter *)

Lemma mapIndexed_length f (idx : nat) (lines : list jsstring) :
  List.length (mapIndexed f idx lines) = List.length lines.
Proof.
  revert idx; induction lines as [|l rest IH]; intros idx; simpl; [|rewrite IH];
    reflexivity.
Qed.

Lemma mapIndexed_nth_error f (lines : list jsstring) :
  forall idx n line,
    nth_error lines n = Some line ->
    nth_error (mapIndexed f idx lines) n = Some (f (idx + n)%nat line).
Proof.
  induction lines as [|l rest IH]; intros idx [|n] line Hn; simpl in *;
    try discriminate.
  - injection Hn as ->. now rewrite Nat.add_0_r.
  - rewrite (IH (S idx) n line Hn). f_equal. f_equal. lia.
Qed.

Lemma instrumentLine_free_of_nl (idx : nat) (line : jsstring) :
  ~ In nl line -> ~ In nl (instrumentLine idx line).
Proof.
  intros Hline. unfold instrumentLine.
  destruct (isEmpty (trim line) || startsWith (trim line) commentMarker);
    [exact Hline|].
  intros Hin. repeat (apply in_app_or in Hin; destruct Hin as [Hin|Hin]).
  - vm_compute in Hin. intuition discriminate.
  - exact (numberToString_free_of_nl _ Hin).
  - vm_compute in Hin. intuition discriminate.
  - auto.
Qed.

Lemma mapIndexed_free_of_nl (lines : list jsstring) :
  forall idx,
    Forall (fun piece => ~ In nl piece) lines ->
    Forall (fun piece => ~ In nl piece) (mapIndexed instrumentLine idx lines).
Proof.
  induction lines as [|l rest IH]; intros idx Hfree; simpl; [constructor|].
  inversion Hfree; subst.
  constructor; [now apply instrumentLine_free_of_nl|now apply IH].
Qed.

(** The lines of the instrumented text are the instrumented lines of
    the source. *)
Lemma split_instrumentCode (code : jsstring) :
  split nl (instrumentCode code) = mapIndexed instrumentLine 0 (split nl code).
Proof.
  unfold instrumentCode. apply split_join.
  - intros E. apply (f_equal (@List.length _)) in E.
    rewrite mapIndexed_length in E.
    destruct (split nl code) eqn:Es; [now apply split_not_nil in Es|discriminate].
  - apply mapIndexed_free_of_nl, split_pieces_free.
Qed.

(** C3: Instrumenter contract: the instrumented text has as many lines
    as the source; a line that is non-empty after trimming and whose
    trimmed text does not start with the comment marker is prefixed by
    the tracking call carrying its 1-based line number; a blank or
    comment-only line is returned as it is. *)
Theorem C3_instrumentCode_contract (code : jsstring) :
  let lines := split nl code in
  let out := split nl (instrumentCode code) in
  List.length out = List.length lines /\
  forall (idx : nat) (line : jsstring),
    nth_error lines idx = Some line ->
    (isEmpty (trim line) = false ->
     startsWith (trim line) commentMarker = false ->
     nth_error out idx =
       Some (lit "__track(" ++ numberToString (Z.of_nat idx + 1) ++ lit "); " ++ line))
    /\
    (isEmpty (trim line) = true \/ startsWith (trim line) commentMarker = true ->
     nth_error out idx = Some line).
Proof.
  cbv zeta. rewrite split_instrumentCode. split.
  - apply mapIndexed_length.
  - intros idx line Hline.
    rewrite (mapIndexed_nth_error instrumentLine _ 0 idx line Hline). simpl.
    unfold instrumentLine. split.
    + intros -> ->. reflexivity.
    + intros [-> | ->]; [reflexivity|]. now rewrite orb_true_r.
Qed.

Lemma C3_witness :
  nth_error (split nl (instrumentCode oneLiner)) 0
  = Some (lit "__track(" ++ numberToString 1 ++ lit "); " ++ oneLiner).
Proof.
  destruct (C3_instrumentCode_contract oneLiner) as (_ & Hlines).
  destruct (Hlines 0%nat oneLiner eq_refl) as (Hprefixed & _).
  apply Hprefixed; reflexivity.
Defined.

Example instrument_demo :
  instrumentCode (lit "let x = 1;" ++ [nl] ++ lit "  // note" ++ [nl] ++ [nl] ++ lit "x")
  = lit "__track(1); let x = 1;" ++ [nl] ++ lit "  // note" ++ [nl] ++ [nl]
    ++ lit "__track(4); x".
Proof. vm_compute. reflexivity. Qed.

(** ** Reset, stepping and the language gate *)

(** C10: [stepNext] clears [isPaused] and nothing else: the other
    fields of the execution state, the code and the language are the
    ones it was given, and no hook runs (the history and the step
    counter are untouched). *)
Theorem C10_stepNext_frame (eng : engine) :
  let eng' := stepNext eng in
  isPaused (executionState eng') = false /\
  currentLine (executionState eng') = currentLine (executionState eng) /\
  variables (executionState eng') = variables (executionState eng) /\
  callStack (executionState eng') = callStack (executionState eng) /\
  executionHistory (executionState eng') = executionHistory (executionState eng) /\
  breakpoints (executionState eng') = breakpoints (executionState eng) /\
  step (executionState eng') = step (executionState eng) /\
  code eng' = code eng /\
  language eng' = language eng.
Proof. cbv zeta. repeat split. Qed.

(** C8: Unsupported language: with a language tag other than
    javascript, [execute] answers with the error result at once; the
    engine, its execution state included, is the one it was given,
    whatever the host would have made of the code. *)
Theorem C8_unsupported_language (H : jshost) (eng : engine) :
  language eng <> javascript ->
  execute H eng
  = (Failure (Some unsupportedMessage) None (executionState eng), eng).
Proof.
  intros Hlang. unfold execute.
  destruct (string_eqb (language eng) (lit "javascript")) eqn:E; [|reflexivity].
  apply string_eqb_eq in E. contradiction.
Qed.

Lemma C8_witness :
  execute oneLinerHost (setCode oneLiner (lit "python") constructor)
  = (Failure (Some unsupportedMessage) None
       (executionState (setCode oneLiner (lit "python") constructor)),
     setCode oneLiner (lit "python") constructor).
Proof.
  apply C8_unsupported_language. intros E. vm_compute in E. discriminate E.
Defined.

(** C4, as the code has it: [reset] installs a new state object:
    current line 0, no variables, empty call stack and history, step 0,
    not paused, and an empty breakpoint set; the code and the language
    are kept.  [setCode] ends in the same state. *)
Theorem C4_reset_clears_everything (eng : engine) :
  executionState (reset eng) = freshState /\
  currentLine (executionState (reset eng)) = 0%Z /\
  variables (executionState (reset eng)) = [] /\
  executionHistory (executionState (reset eng)) = [] /\
  step (executionState (reset eng)) = 0%nat /\
  isPaused (executionState (reset eng)) = false /\
  breakpoints (executionState (reset eng)) = [] /\
  code (reset eng) = code eng /\
  language (reset eng) = language eng /\
  forall c l, executionState (setCode c l eng) = freshState.
Proof. repeat split. Qed.

(** C4, as stated, fails: a breakpoint armed on line 3 is gone after
    [reset]. *)
Lemma C4_breakpoints_do_not_persist :
  breakpoints (executionState (addBreakpoint 3 constructor)) = [3%Z] /\
  breakpoints (executionState (reset (addBreakpoint 3 constructor)))
  <> breakpoints (executionState (addBreakpoint 3 constructor)).
Proof. split; [reflexivity|discriminate]. Qed.

(** ** Flow graph *)

Lemma flowLoop_shape (st : ExecutionState) (codeLines : list jsstring) :
  forall idx flow,
  exists ns,
    nodes (flowLoop st idx codeLines flow) = nodes flow ++ ns /\
    edges (flowLoop st idx codeLines flow) = edges flow ++ flat_map incomingEdge ns /\
    Forall (fun n => (Z.of_nat idx < node_line n)%Z /\
                     node_id n = node_line n /\
                     isEmpty (node_code n) = false /\
                     node_executed n = lineInHistory st (node_line n)) ns /\
    StronglySorted (fun a b => (node_line a < node_line b)%Z) ns.
Proof.
  induction codeLines as [|line rest IH]; intros idx flow; simpl.
  - exists []. simpl. rewrite !app_nil_r. repeat split; constructor.
  - destruct (IH (S idx) (flowStep st idx line flow)) as (ns & Hn & He & Hall & Hsorted).
    assert (Hmono : Forall (fun n => (Z.of_nat idx < node_line n)%Z /\
                     node_id n = node_line n /\
                     isEmpty (node_code n) = false /\
                     node_executed n = lineInHistory st (node_line n)) ns).
    { eapply Forall_impl; [|exact Hall]. simpl. intros n (H1 & H2). split; [lia|exact H2]. }
    unfold flowStep in *.
    destruct (isEmpty (trim line)) eqn:Hblank.
    + exists ns. split; [exact Hn|split; [exact He|split; [exact Hmono|exact Hsorted]]].
    + set (node := {| node_id := Z.of_nat idx + 1; node_line := Z.of_nat idx + 1;
                      node_code := trim line; node_type := getNodeType (trim line);
                      node_executed := lineInHistory st (Z.of_nat idx + 1) |}) in *.
      exists (node :: ns).
      assert (Hedge :
        (if (0 <? idx)%nat && negb (startsWith (trim line) (lit "}"))
            && negb (startsWith (trim line) (lit "else"))
         then [{| edge_from := Z.of_nat idx; edge_to := Z.of_nat idx + 1 |}]
         else []) = incomingEdge node).
      { unfold incomingEdge, node; simpl.
        replace (1 <? Z.of_nat idx + 1)%Z with (0 <? idx)%nat.
        - replace (Z.of_nat idx + 1 - 1)%Z with (Z.of_nat idx) by lia. reflexivity.
        - destruct (Nat.ltb_spec 0 idx), (Z.ltb_spec 1 (Z.of_nat idx + 1)); auto; lia. }
      destruct ((0 <? idx)%nat && negb (startsWith (trim line) (lit "}"))
                && negb (startsWith (trim line) (lit "else"))); simpl in Hn, He |- *.
      * rewrite Hn, He. rewrite <- !app_assoc. simpl. rewrite <- Hedge.
        split; [reflexivity|split; [reflexivity|split]].
        { constructor; [|exact Hmono]. unfold node; simpl.
          split; [lia|split; [reflexivity|split; [exact Hblank|reflexivity]]]. }
        { constructor; [exact Hsorted|].
          eapply Forall_impl; [|exact Hall]. unfold node; simpl. intros a (Ha & _). lia. }
      * rewrite Hn, He. rewrite <- !app_assoc. simpl. rewrite <- Hedge. simpl.
        split; [reflexivity|split; [reflexivity|split]].
        { constructor; [|exact Hmono]. unfold node; simpl.
          split; [lia|split; [reflexivity|split; [exact Hblank|reflexivity]]]. }
        { constructor; [exact Hsorted|].
          eapply Forall_impl; [|exact Hall]. unfold node; simpl. intros a (Ha & _). lia. }
Qed.

(** Every node sits on a line numbered from 1 and carries the flag
    computed from the history. *)
Lemma getExecutionFlow_nodes (eng : engine) (n : flowNode) :
  In n (nodes (getExecutionFlow eng)) ->
  (1 <= node_line n)%Z /\
  node_executed n = lineInHistory (executionState eng) (node_line n).
Proof.
  unfold getExecutionFlow.
  destruct (flowLoop_shape (executionState eng) (split nl (code eng)) 0
              {| nodes := []; edges := [] |}) as (ns & Hn & _ & Hall & _).
  rewrite Hn. simpl. intros Hin.
  rewrite Forall_forall in Hall. destruct (Hall n Hin) as (H1 & _ & _ & H4).
  split; [simpl in H1; lia|exact H4].
Qed.

Lemma sorted_lines_inj (ns : list flowNode) :
  StronglySorted (fun a b => (node_line a < node_line b)%Z) ns ->
  forall a b, In a ns -> In b ns -> node_line a = node_line b -> a = b.
Proof.
  induction 1 as [|x ns Hs IH Hx]; intros a b Ha Hb Hab; [destruct Ha|].
  rewrite Forall_forall in Hx.
  destruct Ha as [<-|Ha], Hb as [<-|Hb]; auto.
  - specialize (Hx b Hb). lia.
  - specialize (Hx a Ha). lia.
Qed.

Lemma getExecutionFlow_lines_inj (eng : engine) (a b : flowNode) :
  In a (nodes (getExecutionFlow eng)) -> In b (nodes (getExecutionFlow eng)) ->
  node_line a = node_line b -> a = b.
Proof.
  unfold getExecutionFlow.
  destruct (flowLoop_shape (executionState eng) (split nl (code eng)) 0
              {| nodes := []; edges := [] |}) as (ns & Hn & _ & _ & Hs).
  rewrite Hn. simpl. now apply sorted_lines_inj.
Qed.

Lemma getExecutionFlow_edges (eng : engine) :
  edges (getExecutionFlow eng)
  = flat_map incomingEdge (nodes (getExecutionFlow eng)).
Proof.
  unfold getExecutionFlow.
  destruct (flowLoop_shape (executionState eng) (split nl (code eng)) 0
              {| nodes := []; edges := [] |}) as (ns & Hn & He & _).
  rewrite Hn, He. reflexivity.
Qed.

(** C5, as the code has it: the edges are exactly the incoming edges
    of the emitted nodes, in node order: a node on a line after the
    first whose trimmed text begins neither with a closing brace nor
    with else gets one edge, from the line right above it (its line
    number minus one, blank or not); any other node gets none. *)
Theorem C5_flow_edges (eng : engine) :
  edges (getExecutionFlow eng)
  = flat_map incomingEdge (nodes (getExecutionFlow eng)) /\
  forall n, In n (nodes (getExecutionFlow eng)) ->
    (startsWith (node_code n) (lit "}") = true \/
     startsWith (node_code n) (lit "else") = true \/
     node_line n = 1%Z ->
     forall e, In e (edges (getExecutionFlow eng)) -> edge_to e <> node_line n) /\
    (startsWith (node_code n) (lit "}") = false ->
     startsWith (node_code n) (lit "else") = false ->
     node_line n <> 1%Z ->
     forall e, In e (edges (getExecutionFlow eng)) -> edge_to e = node_line n ->
       e = {| edge_from := node_line n - 1; edge_to := node_line n |}) /\
    (startsWith (node_code n) (lit "}") = false ->
     startsWith (node_code n) (lit "else") = false ->
     node_line n <> 1%Z ->
     In {| edge_from := node_line n - 1; edge_to := node_line n |}
        (edges (getExecutionFlow eng))).
Proof.
  split; [apply getExecutionFlow_edges|].
  intros n Hn. rewrite getExecutionFlow_edges.
  assert (Hown : forall e, In e (flat_map incomingEdge (nodes (getExecutionFlow eng))) ->
                 edge_to e = node_line n -> In e (incomingEdge n)).
  { intros e He Hto. apply in_flat_map in He as (m & Hm & He).
    assert (m = n); [|now subst].
    apply (getExecutionFlow_lines_inj eng); auto.
    unfold incomingEdge in He.
    destruct ((1 <? node_line m)%Z && _ && _); [|destruct He].
    destruct He as [<-|[]]. simpl in Hto. auto. }
  split; [|split].
  - intros Hcase e He Hto. specialize (Hown e He Hto).
    unfold incomingEdge in Hown.
    destruct (Z.ltb_spec 1 (node_line n)) as [Hlt|Hge];
      destruct (startsWith (node_code n) (lit "}")) eqn:E1;
      destruct (startsWith (node_code n) (lit "else")) eqn:E2;
      cbn [andb negb] in Hown; try contradiction.
    destruct Hcase as [Hc|[Hc|Hc]]; try discriminate Hc. lia.
  - intros H1 H2 _ e He Hto. specialize (Hown e He Hto).
    unfold incomingEdge in Hown. rewrite H1, H2 in Hown.
    destruct (1 <? node_line n)%Z; cbn [andb negb] in Hown; [|contradiction].
    destruct Hown as [<-|[]]. reflexivity.
  - intros H1 H2 Hline. apply in_flat_map. exists n. split; [exact Hn|].
    unfold incomingEdge. rewrite H1, H2.
    destruct (getExecutionFlow_nodes eng n Hn) as (Hpos & _).
    destruct (Z.ltb_spec 1 (node_line n)); [left; reflexivity|lia].
Qed.

Lemma C5_witness :
  In {| edge_from := 2; edge_to := 3 |}
     (edges (getExecutionFlow (setCode gapped javascript constructor))).
Proof.
  destruct (C5_flow_edges (setCode gapped javascript constructor)) as (_ & Hnodes).
  destruct (Hnodes {| node_id := 3; node_line := 3; node_code := lit "b();";
                      node_type := NStatement; node_executed := false |})
    as (_ & _ & Hedge).
  - vm_compute. right. left. reflexivity.
  - apply Hedge; [reflexivity|reflexivity|discriminate].
Defined.

(** C5, as stated, fails: in a three-line source whose middle line is
    blank, the node of line 3 gets its edge from line 2, the blank
    line, which has no node; there is no edge from line 1, the
    preceding non-blank line. *)
Lemma C5_edge_from_blank_line :
  let flow := getExecutionFlow (setCode gapped javascript constructor) in
  map node_line (nodes flow) = [1%Z; 3%Z] /\
  edges flow = [{| edge_from := 2; edge_to := 3 |}] /\
  ~ In {| edge_from := 1; edge_to := 3 |} (edges flow).
Proof.
  vm_compute. repeat split. intros [E|[]]. discriminate E.
Qed.

(** C9: Empty source: with the empty string as code and a step
    counter of 0, the flow graph has no node and no edge and
    [avgStepsPerLine] is 0; the divisor, the number of lines of the
    code, is never 0, whatever the code. *)
Theorem C9_empty_source (eng : engine) :
  code eng = [] ->
  step (executionState eng) = 0%nat ->
  getExecutionFlow eng = {| nodes := []; edges := [] |} /\
  avgStepsPerLine (analyzePerformance eng) = 0%Q /\
  List.length (split nl (code eng)) = 1%nat /\
  forall eng' : engine, List.length (split nl (code eng')) <> 0%nat.
Proof.
  intros Hcode Hstep. repeat split.
  - unfold getExecutionFlow. rewrite Hcode. reflexivity.
  - unfold analyzePerformance. simpl. rewrite Hcode, Hstep. reflexivity.
  - rewrite Hcode. reflexivity.
  - intros eng' E. apply length_zero_iff_nil in E. now apply split_not_nil in E.
Qed.

Lemma C9_witness :
  getExecutionFlow constructor = {| nodes := []; edges := [] |} /\
  avgStepsPerLine (analyzePerformance constructor) = 0%Q.
Proof.
  destruct (C9_empty_source constructor eq_refl eq_refl) as (Hflow & Havg & _).
  split; [exact Hflow|exact Havg].
Defined.

(** ** The trace invariant behind the executed flag *)

Lemma lineVisited_push (st : ExecutionState) (e : entry) (l : Z) :
  lineVisited st l -> lineVisited (pushEntry e st) l.
Proof.
  intros (s & v & Hin). exists s, v. simpl. apply in_or_app. now left.
Qed.

Lemma traceInv_push (st : ExecutionState) (e : entry) :
  traceInv st ->
  entry_line e = currentLine st ->
  traceInv (pushEntry e st).
Proof.
  intros (Hcur & Hall) He. split.
  - simpl. destruct Hcur as [Hcur|Hcur]; [now left|right].
    now apply lineVisited_push.
  - intros h Hin. simpl in Hin. apply in_app_or in Hin as [Hin|[<-|[]]].
    + destruct (Hall h Hin) as [H0|Hv]; [now left|right].
      now apply lineVisited_push.
    + rewrite He. destruct Hcur as [Hcur|Hcur]; [now left|right].
      now apply lineVisited_push.
Qed.

Lemma traceInv_same_trace (st st' : ExecutionState) :
  currentLine st' = currentLine st ->
  executionHistory st' = executionHistory st ->
  traceInv st -> traceInv st'.
Proof.
  unfold traceInv, lineVisited. intros -> ->. auto.
Qed.

Lemma traceInv_track (H : jshost) (lineNum : Z) (st : ExecutionState) :
  traceInv st -> traceInv (snd (__track H lineNum st)).
Proof.
  intros (Hcur & Hall).
  assert (Hnew : traceInv (pushEntry (LineEntry (step st) lineNum (variables st))
                             (snd (bumpStep (withCurrentLine st lineNum))))).
  { assert (Hv : lineVisited
                   (pushEntry (LineEntry (step st) lineNum (variables st))
                      (snd (bumpStep (withCurrentLine st lineNum)))) lineNum).
    { exists (step st), (variables st). simpl. apply in_or_app. right. now left. }
    split.
    - right. exact Hv.
    - intros h Hin. simpl in Hin. apply in_app_or in Hin as [Hin|[<-|[]]].
      + destruct (Hall h Hin) as [H0|(s & v & Hh)]; [now left|right].
        exists s, v. simpl. apply in_or_app. now left.
      + right. exact Hv. }
  unfold __track. simpl.
  destruct (setHas lineNum (breakpoints st)); simpl; [|exact Hnew].
  eapply traceInv_same_trace; [| |exact Hnew]; reflexivity.
Qed.

Lemma traceInv_captureVar (name : jsstring) (value : jsval) (st : ExecutionState) :
  traceInv st -> traceInv (snd (__captureVar name value st)).
Proof.
  intros Hinv. unfold __captureVar. simpl.
  apply traceInv_push; [|reflexivity].
  eapply traceInv_same_trace; [| |exact Hinv]; reflexivity.
Qed.

Lemma traceInv_bumpStep (st : ExecutionState) :
  traceInv st -> traceInv (snd (bumpStep st)).
Proof.
  intros Hinv. eapply traceInv_same_trace; [| |exact Hinv]; reflexivity.
Qed.

Lemma traceInv_consoleLog (H : jshost) (args : list jsval) (st : ExecutionState) :
  traceInv st -> traceInv (snd (consoleLog H args st)).
Proof.
  intros Hinv. unfold consoleLog. simpl.
  destruct (joinArgs args); simpl.
  - apply traceInv_push; [|reflexivity]. now apply traceInv_bumpStep.
  - now apply traceInv_bumpStep.
Qed.

Lemma traceInv_run (H : jshost) (p : behaviour) :
  forall st, traceInv st -> traceInv (snd (run H p st)).
Proof.
  induction p as [v|e|lineNum k IHk|name value k IHk|args k IHk|body IHb handler IHh k IHk];
    intros st Hinv; cbn [run].
  - exact Hinv.
  - exact Hinv.
  - pose proof (traceInv_track H lineNum st Hinv) as Ht.
    destruct (__track H lineNum st) as [[v|e] st1]; cbn [snd] in *; auto.
  - pose proof (traceInv_captureVar name value st Hinv) as Ht.
    destruct (__captureVar name value st) as [[v|e] st1]; cbn [snd] in *; auto.
  - pose proof (traceInv_consoleLog H args st Hinv) as Ht.
    destruct (consoleLog H args st) as [[v|e] st1]; cbn [snd] in *; auto.
  - pose proof (IHb st Hinv) as Hb.
    destruct (run H body st) as [[v|e] st1]; cbn [snd] in *.
    + now apply IHk.
    + pose proof (IHh e st1 Hb) as Hh.
      destruct (run H (handler e) st1) as [[v|e'] st2]; cbn [snd] in *; auto.
Qed.

Lemma traceInv_fresh : traceInv freshState.
Proof. split; [now left|intros h []]. Qed.

Lemma traceInv_execute (H : jshost) (eng : engine) :
  traceInv (executionState eng) ->
  traceInv (executionState (snd (execute H eng))).
Proof.
  intros Hinv. unfold execute.
  destruct (negb (string_eqb (language eng) (lit "javascript"))); [exact Hinv|].
  unfold executeInstrumented.
  pose proof (traceInv_run H
                (evalFunction H (useStrict ++ instrumentCode (code eng))) _ Hinv) as Hr.
  destruct (run H _ (executionState eng)) as [[v|e] st]; simpl in *; [exact Hr|].
  destruct (errorMessage H e); simpl.
  - now apply traceInv_bumpStep.
  - apply traceInv_push; [|reflexivity]. now apply traceInv_bumpStep.
Qed.

Lemma reachable_traceInv (eng : engine) :
  reachable eng -> traceInv (executionState eng).
Proof.
  induction 1; simpl; try apply traceInv_fresh.
  - eapply traceInv_same_trace; [| |exact IHreachable]; reflexivity.
  - eapply traceInv_same_trace; [| |exact IHreachable]; reflexivity.
  - eapply traceInv_same_trace; [| |exact IHreachable]; reflexivity.
  - now apply traceInv_execute.
Qed.

Lemma lineInHistory_true (st : ExecutionState) (l : Z) :
  lineInHistory st l = true <->
  exists h, In h (executionHistory st) /\ entry_line h = l.
Proof.
  unfold lineInHistory. rewrite existsb_exists.
  split; intros (h & Hin & Hl); exists h; split; auto; now apply Z.eqb_eq.
Qed.

(** C6: Executed flag: in every engine reachable through the public
    operations, a flow node is flagged executed exactly when some
    line-visit entry of the history has the node's line; right after
    construction or [setCode] no node is flagged. *)
Theorem C6_executed_flag (eng : engine) :
  reachable eng ->
  (forall n, In n (nodes (getExecutionFlow eng)) ->
     (node_executed n = true <-> lineVisited (executionState eng) (node_line n))) /\
  (forall c l n, In n (nodes (getExecutionFlow (setCode c l eng))) ->
     node_executed n = false) /\
  (forall n, In n (nodes (getExecutionFlow constructor)) -> node_executed n = false).
Proof.
  intros Hreach. split; [|split].
  - intros n Hn. destruct (getExecutionFlow_nodes eng n Hn) as (Hpos & ->).
    rewrite lineInHistory_true. split.
    + intros (h & Hin & Hl).
      destruct (reachable_traceInv eng Hreach) as (_ & Hall).
      destruct (Hall h Hin) as [H0|Hv]; [lia|]. now rewrite Hl in Hv.
    + intros (s & v & Hin). exists (LineEntry s (node_line n) v). auto.
  - intros c l n Hn. now destruct (getExecutionFlow_nodes _ n Hn) as (_ & ->).
  - intros n Hn. now destruct (getExecutionFlow_nodes _ n Hn) as (_ & ->).
Qed.

Lemma C6_witness :
  node_executed ranOneLinerNode = true
  <-> lineVisited (executionState ranOneLiner) (node_line ranOneLinerNode).
Proof.
  assert (Hreach : reachable ranOneLiner)
    by apply reach_execute, reach_setCode, reach_constructor.
  destruct (C6_executed_flag ranOneLiner Hreach) as (Hflag & _).
  apply Hflag. vm_compute. left. reflexivity.
Defined.

(** ** Performance analysis *)

Lemma lookupCount_In (o : counts) (L : Z) (c : nat) :
  NoDup (keys o) ->
  (lookupCount L o = Some c <-> In (L, c) o).
Proof.
  induction o as [|[k c'] rest IH]; simpl; intros Hnd.
  - split; [discriminate|intros []].
  - inversion Hnd as [|? ? Hk Hrest]; subst.
    destruct (Z.eqb_spec k L) as [->|Hne].
    + split.
      * intros [= ->]. now left.
      * intros [[= ->]|Hin]; [reflexivity|].
        exfalso. apply Hk. apply (in_map fst) in Hin. exact Hin.
    + rewrite (IH Hrest). split; [now right|].
      intros [[= -> _]|Hin]; [congruence|exact Hin].
Qed.

Lemma lookupCount_storeCount_same (o : counts) (L : Z) (c : nat) :
  lookupCount L (storeCount L c o) = Some c.
Proof.
  induction o as [|[k c'] rest IH]; simpl.
  - now rewrite Z.eqb_refl.
  - destruct (Z.eqb_spec k L) as [->|Hne]; simpl.
    + now rewrite Z.eqb_refl.
    + destruct (Z.eqb_spec k L); [contradiction|exact IH].
Qed.

Lemma lookupCount_storeCount_other (o : counts) (L L' : Z) (c : nat) :
  L' <> L ->
  lookupCount L' (storeCount L c o) = lookupCount L' o.
Proof.
  intros Hne. induction o as [|[k c'] rest IH]; simpl.
  - destruct (Z.eqb_spec L L'); [congruence|reflexivity].
  - destruct (Z.eqb_spec k L) as [->|Hk]; simpl.
    + destruct (Z.eqb_spec L L'); [congruence|reflexivity].
    + now rewrite IH.
Qed.

Lemma keys_storeCount (o : counts) (L k : Z) (c : nat) :
  In k (keys (storeCount L c o)) -> k = L \/ In k (keys o).
Proof.
  induction o as [|[k' c'] rest IH]; simpl.
  - intros [<-|[]]. now left.
  - destruct (Z.eqb_spec k' L) as [->|Hne]; simpl.
    + intros [<-|Hin]; [now left|right; now right].
    + intros [<-|Hin]; [right; now left|].
      destruct (IH Hin); [now left|right; now right].
Qed.

Lemma NoDup_storeCount (o : counts) (L : Z) (c : nat) :
  NoDup (keys o) -> NoDup (keys (storeCount L c o)).
Proof.
  induction o as [|[k c'] rest IH]; simpl; intros Hnd.
  - constructor; [intros []|constructor].
  - inversion Hnd as [|? ? Hk Hrest]; subst.
    destruct (Z.eqb_spec k L) as [->|Hne]; simpl.
    + constructor; assumption.
    + constructor; [|now apply IH].
      intros Hin. apply keys_storeCount in Hin as [->|Hin]; auto.
Qed.

Lemma lineVisits_cons (L : Z) (e : entry) (history : list entry) :
  lineVisits L (e :: history)
  = ((if isLineEntry e && Z.eqb (entry_line e) L then 1 else 0)
     + lineVisits L history)%nat.
Proof.
  unfold lineVisits. simpl.
  destruct (isLineEntry e && Z.eqb (entry_line e) L); reflexivity.
Qed.

(** The tally of the [forEach] loop: keys stay distinct, stored counts
    are positive, and each key's count grows by its visits. *)
Lemma fold_countVisit (history : list entry) :
  forall o : counts,
    NoDup (keys o) ->
    (forall L c, lookupCount L o = Some c -> (0 < c)%nat) ->
    NoDup (keys (fold_left countVisit history o)) /\
    (forall L c, lookupCount L (fold_left countVisit history o) = Some c -> (0 < c)%nat) /\
    (forall L, countOf L (fold_left countVisit history o)
               = (countOf L o + lineVisits L history)%nat).
Proof.
  induction history as [|e history IH]; intros o Hnd Hpos.
  - simpl. split; [exact Hnd|split; [exact Hpos|]].
    intros L. unfold lineVisits. simpl. lia.
  - cbn [fold_left].
    assert (Hnd' : NoDup (keys (countVisit o e))).
    { destruct e; simpl; auto. now apply NoDup_storeCount. }
    assert (Hpos' : forall L c, lookupCount L (countVisit o e) = Some c -> (0 < c)%nat).
    { destruct e as [s line vars| | |]; simpl; auto.
      intros L c. destruct (Z.eq_dec L line) as [->|Hne].
      - rewrite lookupCount_storeCount_same. intros [= <-]. lia.
      - rewrite lookupCount_storeCount_other by exact Hne. apply Hpos. }
    destruct (IH _ Hnd' Hpos') as (H1 & H2 & H3).
    split; [exact H1|split; [exact H2|]].
    intros L. rewrite H3, lineVisits_cons.
    destruct e as [s line vars| | |]; simpl; try lia.
    unfold countOf.
    destruct (Z.eqb_spec line L) as [->|Hne].
    + rewrite lookupCount_storeCount_same. lia.
    + rewrite lookupCount_storeCount_other by congruence. lia.
Qed.

Lemma lineExecutionCounts_spec (history : list entry) :
  NoDup (keys (lineExecutionCounts history)) /\
  forall L c, In (L, c) (lineExecutionCounts history)
              <-> (c = lineVisits L history /\ (0 < c)%nat).
Proof.
  destruct (fold_countVisit history []) as (Hnd & Hpos & Hcount);
    [constructor|discriminate|].
  fold (lineExecutionCounts history) in *.
  split; [exact Hnd|]. intros L c.
  rewrite <- (lookupCount_In _ L c Hnd).
  specialize (Hcount L). unfold countOf in Hcount. simpl in Hcount.
  split.
  - intros Hl. rewrite Hl in Hcount. split; [exact Hcount|exact (Hpos L c Hl)].
  - intros (-> & Hc).
    destruct (lookupCount L (lineExecutionCounts history)); [congruence|lia].
Qed.

Lemma insertByKey_perm (e : Z * nat) (l : counts) :
  Permutation (insertByKey e l) (e :: l).
Proof.
  induction l as [|x rest IH]; simpl; [reflexivity|].
  destruct (fst e <=? fst x)%Z; [reflexivity|].
  rewrite IH. apply perm_swap.
Qed.

Lemma filter_split_perm (f : Z * nat -> bool) (l : counts) :
  Permutation (filter f l ++ filter (fun e => negb (f e)) l) l.
Proof.
  induction l as [|x rest IH]; simpl; [reflexivity|].
  destruct (f x); simpl.
  - now constructor.
  - rewrite <- Permutation_middle. now constructor.
Qed.

Lemma objectEntries_perm (o : counts) : Permutation (objectEntries o) o.
Proof.
  unfold objectEntries.
  rewrite <- (filter_split_perm (fun e => isArrayIndex (fst e)) o) at 3.
  apply Permutation_app_tail.
  induction (filter (fun e => isArrayIndex (fst e)) o) as [|x rest IH]; simpl;
    [reflexivity|].
  rewrite insertByKey_perm. now constructor.
Qed.

Lemma insertByCount_perm (e : Z * nat) (l : counts) :
  Permutation (insertByCount e l) (e :: l).
Proof.
  induction l as [|x rest IH]; simpl; [reflexivity|].
  destruct (snd e <? snd x)%nat; [|reflexivity].
  rewrite IH. apply perm_swap.
Qed.

Lemma sortByCount_perm (l : counts) : Permutation (sortByCount l) l.
Proof.
  induction l as [|x rest IH]; simpl; [reflexivity|].
  rewrite insertByCount_perm. now constructor.
Qed.

Lemma insertByCount_sorted (e : Z * nat) (l : counts) :
  StronglySorted byCountDesc l -> StronglySorted byCountDesc (insertByCount e l).
Proof.
  induction 1 as [|x rest Hs IH Hx]; simpl.
  - constructor; constructor.
  - destruct (Nat.ltb_spec (snd e) (snd x)) as [Hlt|Hge].
    + constructor; [exact IH|].
      rewrite (insertByCount_perm e rest).
      constructor; [unfold byCountDesc; lia|exact Hx].
    + constructor; [constructor; assumption|].
      constructor; [exact Hge|].
      eapply Forall_impl; [|exact Hx]. unfold byCountDesc. intros a Ha. lia.
Qed.

Lemma sortByCount_sorted (l : counts) : StronglySorted byCountDesc (sortByCount l).
Proof.
  induction l as [|x rest IH]; simpl; [constructor|].
  now apply insertByCount_sorted.
Qed.

Lemma NoDup_keys_filter (f : Z * nat -> bool) (o : counts) :
  NoDup (keys o) -> NoDup (keys (filter f o)).
Proof.
  induction o as [|x rest IH]; simpl; intros Hnd; [constructor|].
  inversion Hnd as [|? ? Hx Hrest]; subst.
  destruct (f x); simpl; [|now apply IH].
  constructor; [|now apply IH].
  intros Hin. apply Hx. unfold keys in *.
  apply in_map_iff in Hin as (y & Hy & Hin).
  apply filter_In in Hin as (Hin & _).
  rewrite <- Hy. now apply in_map.
Qed.

(** The entries behind the hotspot list: the tally, in property order,
    filtered and sorted. *)
Lemma hotspots_unfold (eng : engine) :
  hotspots (analyzePerformance eng)
  = map (fun e => {| hot_line := fst e; executionCount := snd e;
                     hot_code := sourceLine (code eng) (fst e) |})
        (sortByCount
           (filter (fun e => (10 <? snd e)%nat)
              (objectEntries
                 (lineExecutionCounts (executionHistory (executionState eng)))))).
Proof. reflexivity. Qed.

Lemma hot_entries_spec (history : list entry) (L : Z) (c : nat) :
  In (L, c)
     (sortByCount (filter (fun e => (10 <? snd e)%nat)
                     (objectEntries (lineExecutionCounts history))))
  <-> (c = lineVisits L history /\ (10 < c)%nat).
Proof.
  destruct (lineExecutionCounts_spec history) as (_ & Hspec).
  split.
  - intros Hin.
    apply (Permutation_in _ (sortByCount_perm _)) in Hin.
    apply filter_In in Hin as (Hin & Hhot). simpl in Hhot.
    apply (Permutation_in _ (objectEntries_perm _)) in Hin.
    apply Hspec in Hin as (-> & _).
    apply Nat.ltb_lt in Hhot. auto.
  - intros (-> & Hhot).
    apply (Permutation_in _ (Permutation_sym (sortByCount_perm _))).
    apply filter_In. split; [|simpl; now apply Nat.ltb_lt].
    apply (Permutation_in _ (Permutation_sym (objectEntries_perm _))).
    apply Hspec. split; [reflexivity|lia].
Qed.

Lemma hot_entries_NoDup (history : list entry) :
  NoDup (keys (sortByCount (filter (fun e => (10 <? snd e)%nat)
                              (objectEntries (lineExecutionCounts history))))).
Proof.
  destruct (lineExecutionCounts_spec history) as (Hnd & _).
  unfold keys.
  eapply Permutation_NoDup;
    [apply Permutation_map, Permutation_sym, sortByCount_perm|].
  apply NoDup_keys_filter.
  eapply Permutation_NoDup;
    [apply Permutation_map, Permutation_sym, objectEntries_perm|exact Hnd].
Qed.

Lemma all_equal_NoDup (l : list Z) (L : Z) :
  NoDup l -> In L l -> (forall x, In x l -> x = L) -> l = [L].
Proof.
  intros Hnd Hin Hall. destruct l as [|a [|b rest]].
  - destruct Hin.
  - now rewrite (Hall a (or_introl eq_refl)).
  - exfalso. inversion Hnd as [|? ? Ha _]; subst. apply Ha.
    rewrite (Hall a), (Hall b); simpl; auto.
Qed.

Lemma sorted_hotspots (code : jsstring) (es : counts) :
  StronglySorted byCountDesc es ->
  StronglySorted (fun a b => (executionCount b <= executionCount a)%nat)
    (map (fun e => {| hot_line := fst e; executionCount := snd e;
                      hot_code := sourceLine code (fst e) |}) es).
Proof.
  induction 1 as [|x rest Hs IH Hx]; simpl; constructor.
  - exact IH.
  - rewrite Forall_map. eapply Forall_impl; [|exact Hx]. intros a Ha. exact Ha.
Qed.

(** C7: Hotspots: the list holds, once each, exactly the lines whose
    number of line-visit entries exceeds 10, each with that number, in
    order of decreasing count; a line visited 11 times while no other
    line is visited more than 10 times is the whole list; a line
    visited exactly 10 times is not in it. *)
Theorem C7_hotspots (eng : engine) :
  let history := executionHistory (executionState eng) in
  let hs := hotspots (analyzePerformance eng) in
  (forall L c, (exists src, In {| hot_line := L; executionCount := c; hot_code := src |} hs)
               <-> (c = lineVisits L history /\ (10 < c)%nat)) /\
  (forall L, In L (map hot_line hs) <-> (10 < lineVisits L history)%nat) /\
  NoDup (map hot_line hs) /\
  StronglySorted (fun a b => (executionCount b <= executionCount a)%nat) hs /\
  (forall L, lineVisits L history = 11%nat ->
             (forall L', L' <> L -> (lineVisits L' history <= 10)%nat) ->
             map hot_line hs = [L]) /\
  (forall L, lineVisits L history = 10%nat -> ~ In L (map hot_line hs)).
Proof.
  cbv zeta. rewrite hotspots_unfold.
  set (history := executionHistory (executionState eng)).
  set (es := sortByCount _).
  assert (Hexact : forall L c,
            (exists src, In {| hot_line := L; executionCount := c; hot_code := src |}
                           (map (fun e => {| hot_line := fst e; executionCount := snd e;
                                             hot_code := sourceLine (code eng) (fst e) |}) es))
            <-> (c = lineVisits L history /\ (10 < c)%nat)).
  { intros L c. rewrite <- hot_entries_spec. fold es. split.
    - intros (src & Hin). apply in_map_iff in Hin as ([k n] & [= -> -> _] & Hin).
      exact Hin.
    - intros Hin. exists (sourceLine (code eng) L).
      apply in_map_iff. exists (L, c). split; [reflexivity|exact Hin]. }
  assert (Hlines : map hot_line
                     (map (fun e => {| hot_line := fst e; executionCount := snd e;
                                       hot_code := sourceLine (code eng) (fst e) |}) es)
                   = keys es).
  { rewrite map_map. reflexivity. }
  assert (Hmem : forall L, In L (keys es) <-> (10 < lineVisits L history)%nat).
  { intros L. unfold keys. rewrite in_map_iff. split.
    - intros ([k n] & <- & Hin). apply hot_entries_spec in Hin as (-> & Hhot). exact Hhot.
    - intros Hhot. exists (L, lineVisits L history). split; [reflexivity|].
      apply hot_entries_spec. auto. }
  split; [exact Hexact|]. rewrite Hlines.
  split; [exact Hmem|].
  split; [apply hot_entries_NoDup|].
  split; [|split].
  - apply sorted_hotspots, sortByCount_sorted.
  - intros L H11 Hothers. apply all_equal_NoDup.
    + apply hot_entries_NoDup.
    + apply Hmem. lia.
    + intros x Hx. apply Hmem in Hx.
      destruct (Z.eq_dec x L) as [->|Hne]; [reflexivity|].
      specialize (Hothers x Hne). lia.
  - intros L H10 Hin. apply Hmem in Hin. lia.
Qed.

Lemma C7_witness :
  map hot_line (hotspots (analyzePerformance hotEngine)) = [5%Z].
Proof.
  destruct (C7_hotspots hotEngine) as (_ & _ & _ & _ & Halone & _).
  apply Halone; [reflexivity|].
  intros L' Hne. unfold lineVisits, hotEngine, loopTrace. cbn -[Z.eqb].
  destruct (Z.eqb_spec 5 L') as [E|_]; [congruence|]. simpl. lia.
Defined.

(** ** Breakpoints *)



Lemma lastLineVisit_line (history : list entry) (s : nat) (L : Z) (vars : object) :
  lastLineVisit (history ++ [LineEntry s L vars]) = Some L.
Proof. unfold lastLineVisit. rewrite rev_app_distr. reflexivity. Qed.

Lemma lastLineVisit_other (history : list entry) (e : entry) :
  isLineEntry e = false ->
  lastLineVisit (history ++ [e]) = lastLineVisit history.
Proof.
  intros He. unfold lastLineVisit. rewrite rev_app_distr. simpl. now rewrite He.
Qed.

(** What one call of [__track] leaves behind. *)
Lemma track_spec (H : jshost) (lineNum : Z) (st : ExecutionState) :
  let e := LineEntry (step st) lineNum (variables st) in
  executionHistory (snd (__track H lineNum st)) = executionHistory st ++ [e] /\
  breakpoints (snd (__track H lineNum st)) = breakpoints st /\
  (setHas lineNum (breakpoints st) = true ->
   fst (__track H lineNum st)
   = Abrupt (ErrorObject (breakpointMessage lineNum)
               (errorStack H (breakpointMessage lineNum))) /\
   isPaused (snd (__track H lineNum st)) = true) /\
  (setHas lineNum (breakpoints st) = false ->
   fst (__track H lineNum st) = Normal JUndefined /\
   isPaused (snd (__track H lineNum st)) = isPaused st).
Proof.
  unfold __track. simpl.
  destruct (setHas lineNum (breakpoints st)); simpl; repeat split; congruence.
Qed.











(** ** The step counter *)

Lemma stepInv_same_trace (st st' : ExecutionState) :
  step st' = step st ->
  executionHistory st' = executionHistory st ->
  stepInv st -> stepInv st'.
Proof. unfold stepInv. intros -> ->. auto. Qed.

Lemma stepInv_push (st : ExecutionState) (e : entry) :
  stepInv st ->
  entry_step e = step st ->
  stepInv (pushEntry e (snd (bumpStep st))).
Proof.
  intros (Hstep & Hsteps) He. unfold stepInv. simpl.
  rewrite length_app, map_app, Hsteps. simpl.
  rewrite Nat.add_1_r, seq_S, He, Hstep. auto.
Qed.

Lemma stepInv_track (H : jshost) (lineNum : Z) (st : ExecutionState) :
  stepInv st -> stepInv (snd (__track H lineNum st)).
Proof.
  intros Hinv.
  assert (Hnew : stepInv (pushEntry (LineEntry (step st) lineNum (variables st))
                            (snd (bumpStep (withCurrentLine st lineNum))))).
  { apply stepInv_push; [|reflexivity].
    eapply stepInv_same_trace; [| |exact Hinv]; reflexivity. }
  unfold __track. simpl.
  destruct (setHas lineNum (breakpoints st)); simpl; [|exact Hnew].
  eapply stepInv_same_trace; [| |exact Hnew]; reflexivity.
Qed.

Lemma stepInv_captureVar (name : jsstring) (value : jsval) (st : ExecutionState) :
  stepInv st -> stepInv (snd (__captureVar name value st)).
Proof.
  intros Hinv. unfold __captureVar. simpl.
  apply (stepInv_push (withVariables st (setProperty name value (variables st))));
    [|reflexivity].
  eapply stepInv_same_trace; [| |exact Hinv]; reflexivity.
Qed.

Lemma stepInv_consoleLog (H : jshost) (args : list jsval) (st : ExecutionState) :
  joinArgs args <> None ->
  stepInv st -> stepInv (snd (consoleLog H args st)).
Proof.
  intros Hjoin Hinv. unfold consoleLog. simpl.
  destruct (joinArgs args); [|congruence]. simpl.
  now apply (stepInv_push st).
Qed.

Lemma stepInv_run (H : jshost) (p : behaviour) :
  printable p ->
  forall st, stepInv st -> stepInv (snd (run H p st)).
Proof.
  induction p as [v|e|lineNum k IHk|name value k IHk|args k IHk|body IHb handler IHh k IHk];
    intros Hp st Hinv; cbn [run printable] in *.
  - exact Hinv.
  - exact Hinv.
  - pose proof (stepInv_track H lineNum st Hinv) as Ht.
    destruct (__track H lineNum st) as [[v|e] st1]; cbn [snd] in *; auto.
  - pose proof (stepInv_captureVar name value st Hinv) as Ht.
    destruct (__captureVar name value st) as [[v|e] st1]; cbn [snd] in *; auto.
  - destruct Hp as (Hjoin & Hp).
    pose proof (stepInv_consoleLog H args st Hjoin Hinv) as Ht.
    destruct (consoleLog H args st) as [[v|e] st1]; cbn [snd] in *; auto.
  - destruct Hp as (Hpb & Hph & Hpk).
    pose proof (IHb Hpb st Hinv) as Hb.
    destruct (run H body st) as [[v|e] st1]; cbn [snd] in *.
    + now apply IHk.
    + pose proof (IHh e (Hph e) st1 Hb) as Hh.
      destruct (run H (handler e) st1) as [[v|e'] st2]; cbn [snd] in *; auto.
Qed.

(** Where the invariant of C2 does hold: a run whose [console.log]
    arguments can all be printed and which does not end by throwing
    [null] or [undefined] keeps the step counter equal to the length
    of the history and the steps 0, 1, 2, ... *)
Lemma stepInv_execute (H : jshost) (eng : engine) :
  let p := evalFunction H (useStrict ++ instrumentCode (code eng)) in
  printable p ->
  readable (fst (run H p (executionState eng))) ->
  stepInv (executionState eng) ->
  stepInv (executionState (snd (execute H eng))).
Proof.
  cbv zeta. intros Hp Hr Hinv. unfold execute, executeInstrumented.
  destruct (negb (string_eqb (language eng) (lit "javascript"))); [exact Hinv|].
  pose proof (stepInv_run H _ Hp _ Hinv) as Hrun.
  destruct (run H _ (executionState eng)) as [[v|e] st]; cbn [fst snd] in *;
    [exact Hrun|].
  destruct e as [message stack|[]]; simpl in Hr; try contradiction;
    now apply (stepInv_push st).
Qed.

(** C2: Step counter: the code breaks the invariant.  Logging a
    symbol moves the counter without appending (the entry's [step++]
    runs before [args.join] throws); the error path then appends with
    the next step, so the history holds the steps 0 and 2 while the
    counter is 3 for 2 entries.  Throwing [null] does the same in the
    error path of [execute]: the counter is 2 for 1 entry and the
    promise is rejected. *)
Theorem C2_step_counter_breaks :
  (let eng := setCode symbolLogger javascript constructor in
   let st' := executionState (snd (execute symbolLoggerHost eng)) in
   stepInv (executionState eng) /\
   step st' = 3%nat /\
   List.length (executionHistory st') = 2%nat /\
   map entry_step (executionHistory st') = [0%nat; 2%nat] /\
   map entry_type (executionHistory st') = [TLine; TError] /\
   ~ stepInv st') /\
  (let eng := setCode nullThrower javascript constructor in
   let st' := executionState (snd (execute nullThrowerHost eng)) in
   step st' = 2%nat /\
   List.length (executionHistory st') = 1%nat /\
   ~ stepInv st').
Proof.
  split; cbv zeta.
  - split; [split; reflexivity|].
    repeat (split; [vm_compute; reflexivity|]).
    intros (E & _). vm_compute in E. discriminate E.
  - repeat (split; [vm_compute; reflexivity|]).
    intros (E & _). vm_compute in E. discriminate E.
Qed.

(* ================================================================== *)
(** * Further properties of the engine *)

(** ** What every run preserves *)

(** A property of the state that each hook keeps is kept by a run. *)
Lemma run_preserves (P : ExecutionState -> Prop) (H : jshost) :
  (forall lineNum st, P st -> P (snd (__track H lineNum st))) ->
  (forall name value st, P st -> P (snd (__captureVar name value st))) ->
  (forall args st, P st -> P (snd (consoleLog H args st))) ->
  forall p st, P st -> P (snd (run H p st)).
Proof.
  intros Ht Hc Hl.
  induction p as [v|e|lineNum k IHk|name value k IHk|args k IHk|body IHb handler IHh k IHk];
    intros st HP; cbn [run].
  - exact HP.
  - exact HP.
  - specialize (Ht lineNum st HP).
    destruct (__track H lineNum st) as [[v|e] st1]; cbn [snd] in *; auto.
  - specialize (Hc name value st HP).
    destruct (__captureVar name value st) as [[v|e] st1]; cbn [snd] in *; auto.
  - specialize (Hl args st HP).
    destruct (consoleLog H args st) as [[v|e] st1]; cbn [snd] in *; auto.
  - specialize (IHb st HP).
    destruct (run H body st) as [[v|e] st1]; cbn [snd] in *.
    + now apply IHk.
    + specialize (IHh e st1 IHb).
      destruct (run H (handler e) st1) as [[v|e'] st2]; cbn [snd] in *; auto.
Qed.

(** If moreover the error path of [execute] keeps it, [execute] does. *)
Lemma execute_preserves (P : ExecutionState -> Prop) (H : jshost) :
  (forall lineNum st, P st -> P (snd (__track H lineNum st))) ->
  (forall name value st, P st -> P (snd (__captureVar name value st))) ->
  (forall args st, P st -> P (snd (consoleLog H args st))) ->
  (forall st, P st -> P (snd (bumpStep st))) ->
  (forall st message, P st ->
     P (pushEntry (ErrorEntry (step st) message (currentLine st)) (snd (bumpStep st)))) ->
  forall eng, P (executionState eng) -> P (executionState (snd (execute H eng))).
Proof.
  intros Ht Hc Hl Hb He eng HP. unfold execute, executeInstrumented.
  destruct (negb (string_eqb (language eng) (lit "javascript"))); [exact HP|].
  pose proof (run_preserves P H Ht Hc Hl
                (evalFunction H (useStrict ++ instrumentCode (code eng))) _ HP) as Hr.
  destruct (run H _ (executionState eng)) as [[v|e] st]; cbn [snd] in *; [exact Hr|].
  destruct (errorMessage H e); simpl.
  - now apply Hb.
  - now apply He.
Qed.

(** And if it holds of a new state and does not look at the
    breakpoints or the pause flag, every reachable engine has it. *)
Lemma reachable_preserves (P : ExecutionState -> Prop) :
  P freshState ->
  (forall st b, P st -> P (withBreakpoints st b)) ->
  (forall st b, P st -> P (withPaused st b)) ->
  (forall H lineNum st, P st -> P (snd (__track H lineNum st))) ->
  (forall name value st, P st -> P (snd (__captureVar name value st))) ->
  (forall H args st, P st -> P (snd (consoleLog H args st))) ->
  (forall st, P st -> P (snd (bumpStep st))) ->
  (forall st message, P st ->
     P (pushEntry (ErrorEntry (step st) message (currentLine st)) (snd (bumpStep st)))) ->
  forall eng, reachable eng -> P (executionState eng).
Proof.
  intros Hfresh Hbp Hpause Ht Hc Hl Hb He eng Hreach.
  induction Hreach; simpl; auto.
  apply execute_preserves; auto.
Qed.

(** ** The frame of [execute] *)

Lemma extends_refl (st : ExecutionState) : extends st st.
Proof.
  repeat split; auto. exists []. now rewrite app_nil_r.
Qed.

Lemma extends_trans (a b c : ExecutionState) :
  extends a b -> extends b c -> extends a c.
Proof.
  intros (Hb1 & Hc1 & (l1 & Hh1) & Hs1 & Hp1) (Hb2 & Hc2 & (l2 & Hh2) & Hs2 & Hp2).
  repeat split; try congruence; try lia; auto.
  exists (l1 ++ l2). now rewrite Hh2, Hh1, app_assoc.
Qed.

Lemma extends_track (H : jshost) (lineNum : Z) (st : ExecutionState) :
  extends st (snd (__track H lineNum st)).
Proof.
  unfold __track. simpl.
  destruct (setHas lineNum (breakpoints st)); simpl;
    (split; [reflexivity|split; [reflexivity|split; [eexists; reflexivity|]]]);
    simpl; auto.
Qed.

Lemma extends_captureVar (name : jsstring) (value : jsval) (st : ExecutionState) :
  extends st (snd (__captureVar name value st)).
Proof.
  unfold __captureVar. simpl.
  split; [reflexivity|split; [reflexivity|split; [eexists; reflexivity|]]].
  simpl. auto.
Qed.

Lemma extends_bumpStep (st : ExecutionState) : extends st (snd (bumpStep st)).
Proof.
  simpl. split; [reflexivity|split; [reflexivity|split]].
  - exists []. simpl. now rewrite app_nil_r.
  - simpl. auto.
Qed.

Lemma extends_push (st : ExecutionState) (e : entry) :
  extends st (pushEntry e (snd (bumpStep st))).
Proof.
  split; [reflexivity|split; [reflexivity|split; [eexists; reflexivity|]]].
  simpl. auto.
Qed.

Lemma extends_consoleLog (H : jshost) (args : list jsval) (st : ExecutionState) :
  extends st (snd (consoleLog H args st)).
Proof.
  unfold consoleLog. simpl. destruct (joinArgs args); simpl.
  - apply extends_push.
  - apply extends_bumpStep.
Qed.

Lemma execute_extends (H : jshost) (eng : engine) :
  extends (executionState eng) (executionState (snd (execute H eng))).
Proof.
  apply (execute_preserves (extends (executionState eng)) H).
  - intros lineNum st Hst. eapply extends_trans; [exact Hst|apply extends_track].
  - intros name value st Hst. eapply extends_trans; [exact Hst|apply extends_captureVar].
  - intros args st Hst. eapply extends_trans; [exact Hst|apply extends_consoleLog].
  - intros st Hst. eapply extends_trans; [exact Hst|apply extends_bumpStep].
  - intros st message Hst. eapply extends_trans; [exact Hst|apply extends_push].
  - apply extends_refl.
Qed.

Lemma execute_keeps_code (H : jshost) (eng : engine) :
  code (snd (execute H eng)) = code eng /\
  language (snd (execute H eng)) = language eng.
Proof.
  unfold execute. destruct (negb _); [split; reflexivity|].
  destruct (executeInstrumented H _ _) as [[v|e] st]; [split; reflexivity|].
  simpl. destruct (errorMessage H e); split; reflexivity.
Qed.

(** X1: [execute] only adds to the trace.  Whatever the program does,
    the code, the language, the breakpoints and the call stack are the
    ones before the call, the old history is a prefix of the new one,
    the step counter does not go down, and a paused state stays
    paused. *)
Theorem X1_execute_frame (H : jshost) (eng : engine) :
  code (snd (execute H eng)) = code eng /\
  language (snd (execute H eng)) = language eng /\
  breakpoints (executionState (snd (execute H eng)))
  = breakpoints (executionState eng) /\
  callStack (executionState (snd (execute H eng)))
  = callStack (executionState eng) /\
  (exists l, executionHistory (executionState (snd (execute H eng)))
             = executionHistory (executionState eng) ++ l) /\
  (step (executionState eng) <= step (executionState (snd (execute H eng))))%nat /\
  (isPaused (executionState eng) = true ->
   isPaused (executionState (snd (execute H eng))) = true).
Proof.
  destruct (execute_extends H eng) as (Hb & Hc & Hh & Hs & Hp).
  destruct (execute_keeps_code H eng) as (Hcode & Hlang).
  repeat split; assumption.
Qed.

(** ** Invariants of reachable engines *)

Lemma currentLineInv_same_trace (st st' : ExecutionState) :
  currentLine st' = currentLine st ->
  executionHistory st' = executionHistory st ->
  currentLineInv st -> currentLineInv st'.
Proof. unfold currentLineInv. intros -> ->. auto. Qed.

Lemma currentLineInv_push (st : ExecutionState) (e : entry) :
  isLineEntry e = false ->
  currentLineInv st -> currentLineInv (pushEntry e (snd (bumpStep st))).
Proof.
  unfold currentLineInv. simpl. intros He Hinv.
  now rewrite lastLineVisit_other.
Qed.

(** X2: in every engine reachable through the public operations,
    [currentLine] is the line of the most recent line-visit entry of
    the history, and 0 when the history has none. *)
Theorem X2_currentLine_is_last_visit (eng : engine) :
  reachable eng ->
  currentLine (executionState eng)
  = match lastLineVisit (executionHistory (executionState eng)) with
    | Some L => L
    | None => 0%Z
    end.
Proof.
  apply (reachable_preserves currentLineInv).
  - reflexivity.
  - intros st b. apply currentLineInv_same_trace; reflexivity.
  - intros st b. apply currentLineInv_same_trace; reflexivity.
  - intros H lineNum st _. unfold __track. simpl.
    destruct (setHas lineNum (breakpoints st)); unfold currentLineInv; simpl;
      now rewrite lastLineVisit_line.
  - intros name value st Hinv. unfold __captureVar. simpl.
    apply (currentLineInv_push
             (withVariables st (setProperty name value (variables st))));
      [reflexivity|].
    revert Hinv. apply currentLineInv_same_trace; reflexivity.
  - intros H args st Hinv. unfold consoleLog. simpl.
    destruct (joinArgs args); simpl.
    + now apply (currentLineInv_push st).
    + revert Hinv. apply currentLineInv_same_trace; reflexivity.
  - intros st. apply currentLineInv_same_trace; reflexivity.
  - intros st message. now apply currentLineInv_push.
Qed.

Lemma X2_witness :
  currentLine (executionState ranOneLiner)
  = match lastLineVisit (executionHistory (executionState ranOneLiner)) with
    | Some L => L
    | None => 0%Z
    end.
Proof.
  apply X2_currentLine_is_last_visit.
  apply reach_execute, reach_setCode, reach_constructor.
Defined.

(** X3: the call stack is declared and never filled: it is empty in
    every reachable engine. *)
Theorem X3_callStack_empty (eng : engine) :
  reachable eng -> callStack (executionState eng) = [].
Proof.
  apply (reachable_preserves (fun st => callStack st = [])); auto.
  - intros H lineNum st Hst. unfold __track. simpl.
    destruct (setHas lineNum (breakpoints st)); exact Hst.
  - intros H args st Hst. unfold consoleLog. simpl.
    destruct (joinArgs args); exact Hst.
Qed.

Lemma X3_witness : callStack (executionState ranOneLiner) = [].
Proof.
  apply X3_callStack_empty.
  apply reach_execute, reach_setCode, reach_constructor.
Defined.

Lemma NoDup_snoc_fresh (l : list nat) (s : nat) :
  NoDup l -> Forall (fun x => (x < s)%nat) l -> NoDup (l ++ [s]).
Proof.
  induction 1 as [|x l Hx Hnd IH]; intros Hall; simpl.
  - constructor; [intros []|constructor].
  - inversion Hall as [|? ? Hlt Hrest]; subst.
    constructor; [|now apply IH].
    intros Hin. apply in_app_or in Hin as [Hin|[<-|[]]]; [contradiction|lia].
Qed.

Lemma stepsBelowCounter_same_trace (st st' : ExecutionState) :
  step st' = step st ->
  executionHistory st' = executionHistory st ->
  stepsBelowCounter st -> stepsBelowCounter st'.
Proof. unfold stepsBelowCounter. intros -> ->. auto. Qed.

Lemma stepsBelowCounter_bump (st : ExecutionState) :
  stepsBelowCounter st -> stepsBelowCounter (snd (bumpStep st)).
Proof.
  intros (Hnd & Hall & Hlen). unfold stepsBelowCounter. simpl.
  split; [exact Hnd|split; [|lia]].
  eapply Forall_impl; [|exact Hall]. simpl. intros s Hs. lia.
Qed.

Lemma stepsBelowCounter_push (st : ExecutionState) (e : entry) :
  entry_step e = step st ->
  stepsBelowCounter st -> stepsBelowCounter (pushEntry e (snd (bumpStep st))).
Proof.
  intros He (Hnd & Hall & Hlen). unfold stepsBelowCounter. simpl.
  rewrite map_app, length_app. simpl. rewrite He.
  split; [now apply NoDup_snoc_fresh|split; [|lia]].
  apply Forall_app. split.
  - eapply Forall_impl; [|exact Hall]. simpl. intros s Hs. lia.
  - constructor; [lia|constructor].
Qed.

(** X4: in every reachable engine no two entries of the history carry
    the same step, every stored step is below the step counter, and
    the history has at most as many entries as the counter says. *)
Theorem X4_steps_unique_below_counter (eng : engine) :
  reachable eng ->
  NoDup (map entry_step (executionHistory (executionState eng))) /\
  Forall (fun s => (s < step (executionState eng))%nat)
         (map entry_step (executionHistory (executionState eng))) /\
  (List.length (executionHistory (executionState eng))
   <= step (executionState eng))%nat.
Proof.
  apply (reachable_preserves stepsBelowCounter).
  - split; [constructor|split; [constructor|reflexivity]].
  - intros st b. apply stepsBelowCounter_same_trace; reflexivity.
  - intros st b. apply stepsBelowCounter_same_trace; reflexivity.
  - intros H lineNum st Hinv.
    assert (Hnew : stepsBelowCounter
                     (pushEntry (LineEntry (step st) lineNum (variables st))
                        (snd (bumpStep (withCurrentLine st lineNum))))).
    { apply stepsBelowCounter_push; [reflexivity|].
      revert Hinv. apply stepsBelowCounter_same_trace; reflexivity. }
    unfold __track. simpl.
    destruct (setHas lineNum (breakpoints st)); simpl; [|exact Hnew].
    revert Hnew. apply stepsBelowCounter_same_trace; reflexivity.
  - intros name value st Hinv. unfold __captureVar. simpl.
    apply (stepsBelowCounter_push
             (withVariables st (setProperty name value (variables st))));
      [reflexivity|].
    revert Hinv. apply stepsBelowCounter_same_trace; reflexivity.
  - intros H args st Hinv. unfold consoleLog. simpl.
    destruct (joinArgs args); simpl.
    + now apply (stepsBelowCounter_push st).
    + now apply stepsBelowCounter_bump.
  - intros st. apply stepsBelowCounter_bump.
  - intros st message. now apply stepsBelowCounter_push.
Qed.

Lemma X4_witness :
  NoDup (map entry_step (executionHistory (executionState ranRecapture))) /\
  Forall (fun s => (s < step (executionState ranRecapture))%nat)
         (map entry_step (executionHistory (executionState ranRecapture))) /\
  (List.length (executionHistory (executionState ranRecapture))
   <= step (executionState ranRecapture))%nat.
Proof.
  apply X4_steps_unique_below_counter.
  apply reach_execute, reach_setCode, reach_constructor.
Defined.

(** ** Captured variables *)

Lemma string_eqb_refl (a : jsstring) : string_eqb a a = true.
Proof. now apply string_eqb_eq. Qed.


Lemma variableStatesOf_app (h1 h2 : list entry) :
  variableStatesOf (h1 ++ h2) = variableStatesOf h1 ++ variableStatesOf h2.
Proof.
  induction h1 as [|[] h1 IH]; simpl; rewrite ?IH; reflexivity.
Qed.






Example recapture_keeps_second_value :
  getOwnProperty (lit "x") (variables (executionState ranRecapture))
  = Some (JNumber 2) /\
  map vs_value (getVariableStates ranRecapture) = [JNumber 1; JNumber 2].
Proof. split; vm_compute; reflexivity. Qed.

(** ** The error timeline *)


Lemma timeline_push (st : ExecutionState) (e : entry) (t : list entry) :
  isErrorOrWarning e = false ->
  filter isErrorOrWarning (executionHistory st) = t ->
  filter isErrorOrWarning (executionHistory (pushEntry e (snd (bumpStep st)))) = t.
Proof.
  intros He Ht. simpl. rewrite filter_app. simpl. rewrite He, Ht. apply app_nil_r.
Qed.




(** ** Arming and disarming *)

Lemma setHas_app (x : Z) (s t : list Z) :
  setHas x (s ++ t) = setHas x s || setHas x t.
Proof. unfold setHas. apply existsb_app. Qed.

Lemma setHas_setAdd (x y : Z) (s : list Z) :
  setHas y (setAdd x s) = Z.eqb y x || setHas y s.
Proof.
  unfold setAdd. destruct (setHas x s) eqn:Ex.
  - destruct (Z.eqb_spec y x) as [->|_]; [now rewrite Ex|reflexivity].
  - rewrite setHas_app. simpl. rewrite orb_false_r. apply orb_comm.
Qed.

Lemma setHas_setDelete (x y : Z) (s : list Z) :
  setHas y (setDelete x s) = negb (Z.eqb y x) && setHas y s.
Proof.
  unfold setDelete, setHas. induction s as [|z s IH]; simpl.
  - now rewrite andb_false_r.
  - destruct (Z.eqb_spec z x) as [->|Hzx]; simpl.
    + rewrite IH. destruct (Z.eqb_spec y x); simpl; reflexivity.
    + rewrite IH. destruct (Z.eqb_spec y z) as [->|Hyz]; simpl.
      * destruct (Z.eqb_spec z x); [contradiction|reflexivity].
      * reflexivity.
Qed.

Lemma setDelete_absent (x : Z) (s : list Z) :
  setHas x s = false -> setDelete x s = s.
Proof.
  unfold setDelete, setHas. induction s as [|z s IH]; simpl; [reflexivity|].
  intros Hx. apply orb_false_iff in Hx as (Hxz & Hs).
  rewrite Z.eqb_sym, Hxz. simpl. now rewrite IH.
Qed.

Lemma armed_after_add_disarmed_after_remove (eng : engine) (L : Z) :
  setHas L (breakpoints (executionState (addBreakpoint L eng))) = true /\
  setHas L (breakpoints (executionState (removeBreakpoint L eng))) = false.
Proof.
  simpl. now rewrite setHas_setAdd, setHas_setDelete, Z.eqb_refl.
Qed.

(** X7: breakpoint membership.  After [addBreakpoint(L)] a line is
    armed exactly when it is [L] or was armed before; after
    [removeBreakpoint(L)] exactly when it is not [L] and was armed
    before.  Both are idempotent, removing a line that was freshly
    armed gives the engine back, and neither touches the code, the
    language or any other field of the state. *)
Theorem X7_breakpoint_membership (eng : engine) (L L' : Z) :
  setHas L' (breakpoints (executionState (addBreakpoint L eng)))
  = Z.eqb L' L || setHas L' (breakpoints (executionState eng)) /\
  setHas L' (breakpoints (executionState (removeBreakpoint L eng)))
  = negb (Z.eqb L' L) && setHas L' (breakpoints (executionState eng)) /\
  addBreakpoint L (addBreakpoint L eng) = addBreakpoint L eng /\
  removeBreakpoint L (removeBreakpoint L eng) = removeBreakpoint L eng /\
  (setHas L (breakpoints (executionState eng)) = false ->
   breakpoints (executionState (removeBreakpoint L (addBreakpoint L eng)))
   = breakpoints (executionState eng)) /\
  withBreakpoints (executionState (addBreakpoint L eng))
                  (breakpoints (executionState eng))
  = withBreakpoints (executionState eng) (breakpoints (executionState eng)) /\
  withBreakpoints (executionState (removeBreakpoint L eng))
                  (breakpoints (executionState eng))
  = withBreakpoints (executionState eng) (breakpoints (executionState eng)) /\
  code (addBreakpoint L eng) = code eng /\
  language (addBreakpoint L eng) = language eng /\
  code (removeBreakpoint L eng) = code eng /\
  language (removeBreakpoint L eng) = language eng.
Proof.
  split; [apply setHas_setAdd|].
  split; [apply setHas_setDelete|].
  split; [|split; [|split]]; [| | |repeat split].
  - unfold addBreakpoint, withState, withBreakpoints. simpl.
    unfold setAdd at 1. now rewrite setHas_setAdd, Z.eqb_refl.
  - unfold removeBreakpoint, withState, withBreakpoints. simpl.
    rewrite (setDelete_absent L (setDelete L _)); [reflexivity|].
    now rewrite setHas_setDelete, Z.eqb_refl.
  - intros Hfresh. simpl. unfold setAdd. rewrite Hfresh.
    unfold setDelete. rewrite filter_app. simpl. rewrite Z.eqb_refl. simpl.
    rewrite app_nil_r. now apply setDelete_absent.
Qed.

Lemma X7_witness :
  breakpoints (executionState (removeBreakpoint 3 (addBreakpoint 3 constructor)))
  = breakpoints (executionState constructor).
Proof.
  destruct (X7_breakpoint_membership constructor 3 3)
    as (_ & _ & _ & _ & Hundo & _).
  apply Hundo. reflexivity.
Defined.

Lemma track_records (H : jshost) (L : Z) (st : ExecutionState) :
  executionHistory (snd (__track H L st))
  = executionHistory st ++ [LineEntry (step st) L (variables st)] /\
  currentLine (snd (__track H L st)) = L /\
  step (snd (__track H L st)) = S (step st).
Proof.
  unfold __track. simpl. destruct (setHas L (breakpoints st)); simpl; auto.
Qed.

(** X8: arming decides what the tracking hook does.  On a state where
    [L] has just been armed, [__track(L)] throws the error BREAKPOINT
    at line L and sets [isPaused]; on a state where [L] has just been
    disarmed it returns normally and leaves [isPaused] as it was.  In
    both cases the visit is recorded: one line-visit entry for [L] is
    appended and [currentLine] becomes [L]. *)
Theorem X8_armed_hook (H : jshost) (eng : engine) (L : Z) :
  let armed := executionState (addBreakpoint L eng) in
  let disarmed := executionState (removeBreakpoint L eng) in
  (fst (__track H L armed)
   = Abrupt (ErrorObject (breakpointMessage L) (errorStack H (breakpointMessage L))) /\
   isPaused (snd (__track H L armed)) = true) /\
  (fst (__track H L disarmed) = Normal JUndefined /\
   isPaused (snd (__track H L disarmed)) = isPaused (executionState eng)) /\
  (executionHistory (snd (__track H L armed))
   = executionHistory (executionState eng)
     ++ [LineEntry (step (executionState eng)) L (variables (executionState eng))] /\
   currentLine (snd (__track H L armed)) = L) /\
  (executionHistory (snd (__track H L disarmed))
   = executionHistory (executionState eng)
     ++ [LineEntry (step (executionState eng)) L (variables (executionState eng))] /\
   currentLine (snd (__track H L disarmed)) = L).
Proof.
  cbv zeta.
  assert (Ha : setHas L (breakpoints (executionState (addBreakpoint L eng))) = true).
  { destruct (armed_after_add_disarmed_after_remove eng L) as (Ha & _). exact Ha. }
  assert (Hd : setHas L (breakpoints (executionState (removeBreakpoint L eng))) = false).
  { destruct (armed_after_add_disarmed_after_remove eng L) as (_ & Hd). exact Hd. }
  split; [|split; [|split]].
  - destruct (track_spec H L (executionState (addBreakpoint L eng)))
      as (_ & _ & Harmed & _). exact (Harmed Ha).
  - destruct (track_spec H L (executionState (removeBreakpoint L eng)))
      as (_ & _ & _ & Hfree). exact (Hfree Hd).
  - destruct (track_records H L (executionState (addBreakpoint L eng)))
      as (Hh & Hc & _). split; [exact Hh|exact Hc].
  - destruct (track_records H L (executionState (removeBreakpoint L eng)))
      as (Hh & Hc & _). split; [exact Hh|exact Hc].
Qed.

(** ** The nodes of the flow graph *)

Lemma flowLoop_nodes (st : ExecutionState) (codeLines : list jsstring) :
  forall idx flow,
    nodes (flowLoop st idx codeLines flow)
    = nodes flow ++ map (nodeFor st) (nonBlankLines idx codeLines).
Proof.
  induction codeLines as [|line rest IH]; intros idx flow; simpl.
  - now rewrite app_nil_r.
  - rewrite IH. unfold flowStep.
    destruct (isEmpty (trim line)); [reflexivity|].
    destruct ((0 <? idx)%nat && _ && _); simpl; now rewrite <- app_assoc.
Qed.

Lemma getExecutionFlow_nodes_eq (eng : engine) :
  nodes (getExecutionFlow eng)
  = map (nodeFor (executionState eng)) (nonBlankLines 0 (split nl (code eng))).
Proof. unfold getExecutionFlow. now rewrite flowLoop_nodes. Qed.

Lemma nonBlankLines_In (lines : list jsstring) :
  forall idx L text,
    In (L, text) (nonBlankLines idx lines) <->
    exists i line, nth_error lines i = Some line /\
                   L = (Z.of_nat (idx + i) + 1)%Z /\
                   text = trim line /\ isEmpty (trim line) = false.
Proof.
  induction lines as [|l rest IH]; intros idx L text; simpl.
  - split; [intros []|intros ([|i] & line & Hn & _); discriminate Hn].
  - split.
    + intros Hin.
      assert (Hrest : In (L, text) (nonBlankLines (S idx) rest) ->
                      exists i line, nth_error (l :: rest) i = Some line /\
                                     L = (Z.of_nat (idx + i) + 1)%Z /\
                                     text = trim line /\ isEmpty (trim line) = false).
      { intros Hr. apply IH in Hr as (i & line & Hn & HL & Ht & Hb).
        exists (S i), line. simpl. repeat split; auto. rewrite HL. f_equal. lia. }
      destruct (isEmpty (trim l)) eqn:Hblank; [now apply Hrest|].
      destruct Hin as [[= <- <-]|Hin]; [|now apply Hrest].
      exists 0%nat, l. simpl. repeat split; auto. f_equal. lia.
    + intros ([|i] & line & Hn & HL & Ht & Hb); simpl in Hn.
      * injection Hn as ->. rewrite Hb. left. rewrite HL, Ht. f_equal. f_equal. lia.
      * assert (Hin : In (L, text) (nonBlankLines (S idx) rest)).
        { apply IH. exists i, line. repeat split; auto. rewrite HL. f_equal. lia. }
        destruct (isEmpty (trim l)); [exact Hin|now right].
Qed.

Lemma nonBlankLines_sorted (lines : list jsstring) :
  forall idx,
    StronglySorted Z.lt (map fst (nonBlankLines idx lines)) /\
    Forall (fun L => (Z.of_nat idx < L)%Z) (map fst (nonBlankLines idx lines)).
Proof.
  induction lines as [|l rest IH]; intros idx; simpl.
  - split; constructor.
  - destruct (IH (S idx)) as (Hs & Hall).
    assert (Hall' : Forall (fun L => (Z.of_nat idx < L)%Z)
                      (map fst (nonBlankLines (S idx) rest))).
    { eapply Forall_impl; [|exact Hall]. simpl. intros L HL. lia. }
    destruct (isEmpty (trim l)); [split; assumption|]. simpl. split.
    + constructor; [exact Hs|].
      eapply Forall_impl; [|exact Hall]. simpl. intros L HL. lia.
    + constructor; [lia|exact Hall'].
Qed.

Lemma nonBlankLines_length (lines : list jsstring) :
  forall idx,
    List.length (nonBlankLines idx lines)
    = List.length (filter (fun line => negb (isEmpty (trim line))) lines).
Proof.
  induction lines as [|l rest IH]; intros idx; simpl; [reflexivity|].
  destruct (isEmpty (trim l)); simpl; now rewrite IH.
Qed.

Lemma nodes_are_nonblank_lines (eng : engine) :
  (forall n, In n (nodes (getExecutionFlow eng)) ->
     exists i line,
       nth_error (split nl (code eng)) i = Some line /\
       isEmpty (trim line) = false /\
       node_line n = (Z.of_nat i + 1)%Z /\
       node_id n = node_line n /\
       node_code n = trim line /\
       node_type n = getNodeType (trim line)) /\
  (forall i line,
     nth_error (split nl (code eng)) i = Some line ->
     isEmpty (trim line) = false ->
     exists n, In n (nodes (getExecutionFlow eng)) /\
               node_line n = (Z.of_nat i + 1)%Z) /\
  StronglySorted Z.lt (map node_line (nodes (getExecutionFlow eng))).
Proof.
  rewrite getExecutionFlow_nodes_eq.
  split; [|split].
  - intros n Hn. apply in_map_iff in Hn as ([L text] & <- & Hin).
    apply nonBlankLines_In in Hin as (i & line & Hnth & HL & Ht & Hb).
    exists i, line. simpl. subst. repeat split; auto.
  - intros i line Hnth Hb.
    exists (nodeFor (executionState eng) ((Z.of_nat i + 1)%Z, trim line)).
    split; [|reflexivity]. apply in_map. apply nonBlankLines_In.
    exists i, line. repeat split; auto.
  - rewrite map_map. simpl.
    apply (nonBlankLines_sorted (split nl (code eng)) 0).
Qed.

(** X9: one node per non-blank line.  The nodes of [getExecutionFlow]
    are exactly the lines of the code that are non-blank after
    trimming: each node sits on such a line, with the line's 1-based
    number as id and line, its trimmed text as code and the type of
    that text; each such line has a node; the nodes come in increasing
    line order, so no line has two; and there are as many nodes as
    non-blank lines. *)
Theorem X9_node_per_nonblank_line (eng : engine) :
  let lines := split nl (code eng) in
  let flow := getExecutionFlow eng in
  (forall n, In n (nodes flow) ->
     exists i line,
       nth_error lines i = Some line /\
       isEmpty (trim line) = false /\
       node_line n = (Z.of_nat i + 1)%Z /\
       node_id n = node_line n /\
       node_code n = trim line /\
       node_type n = getNodeType (trim line)) /\
  (forall i line,
     nth_error lines i = Some line ->
     isEmpty (trim line) = false ->
     exists n, In n (nodes flow) /\ node_line n = (Z.of_nat i + 1)%Z) /\
  StronglySorted Z.lt (map node_line (nodes flow)) /\
  List.length (nodes flow)
  = List.length (filter (fun line => negb (isEmpty (trim line))) lines).
Proof.
  cbv zeta. destruct (nodes_are_nonblank_lines eng) as (Hnode & Hline & Hsorted).
  split; [exact Hnode|split; [exact Hline|split; [exact Hsorted|]]].
  rewrite getExecutionFlow_nodes_eq, length_map. apply nonBlankLines_length.
Qed.

Lemma X9_witness :
  exists n, In n (nodes (getExecutionFlow (setCode gapped javascript constructor)))
            /\ node_line n = 3%Z.
Proof.
  destruct (X9_node_per_nonblank_line (setCode gapped javascript constructor))
    as (_ & Hall & _).
  apply (Hall 2%nat (lit "b();")); reflexivity.
Defined.

(** X10: the flow graph is static.  Two engines that hold the same
    code have the same edges and the same nodes up to the executed
    flags, whatever their language, breakpoints or history. *)
Theorem X10_flow_is_static (eng1 eng2 : engine) :
  code eng1 = code eng2 ->
  map nodeShape (nodes (getExecutionFlow eng1))
  = map nodeShape (nodes (getExecutionFlow eng2)) /\
  edges (getExecutionFlow eng1) = edges (getExecutionFlow eng2).
Proof.
  intros Hcode. rewrite !getExecutionFlow_edges, !getExecutionFlow_nodes_eq, Hcode.
  rewrite !map_map, !flat_map_concat_map, !map_map. split; reflexivity.
Qed.

Lemma X10_witness :
  edges (getExecutionFlow ranOneLiner)
  = edges (getExecutionFlow (setCode oneLiner javascript constructor)).
Proof.
  destruct (X10_flow_is_static ranOneLiner
              (setCode oneLiner javascript constructor)) as (_ & He);
    [reflexivity|exact He].
Defined.

(** ** The edges of the flow graph *)

Lemma incomingEdge_target (n : flowNode) (e : flowEdge) :
  In e (incomingEdge n) ->
  edge_to e = node_line n /\ edge_from e = (node_line n - 1)%Z /\
  (1 < node_line n)%Z.
Proof.
  unfold incomingEdge.
  destruct (Z.ltb_spec 1 (node_line n)); simpl; [|intros []].
  destruct (negb _ && negb _); [|intros []].
  intros [<-|[]]. simpl. auto.
Qed.

Lemma incomingEdge_length (n : flowNode) :
  (List.length (incomingEdge n) <= 1)%nat.
Proof.
  unfold incomingEdge. destruct (_ && _ && _); simpl; lia.
Qed.

Lemma flat_map_incomingEdge_length (ns : list flowNode) :
  (List.length (flat_map incomingEdge ns) <= List.length ns)%nat.
Proof.
  induction ns as [|n ns IH]; simpl; [lia|].
  rewrite length_app. pose proof (incomingEdge_length n). lia.
Qed.

Lemma flat_map_incomingEdge_sorted (ns : list flowNode) :
  StronglySorted Z.lt (map node_line ns) ->
  StronglySorted Z.lt (map edge_to (flat_map incomingEdge ns)).
Proof.
  induction ns as [|n ns IH]; simpl; intros Hs; [constructor|].
  inversion Hs as [|? ? Hs' Hall]; subst. specialize (IH Hs').
  assert (Hrest : Forall (fun t => (node_line n < t)%Z)
                    (map edge_to (flat_map incomingEdge ns))).
  { apply Forall_forall. intros t Ht.
    apply in_map_iff in Ht as (e & <- & He).
    apply in_flat_map in He as (m & Hm & He).
    apply incomingEdge_target in He as (-> & _).
    rewrite Forall_forall in Hall. apply Hall. now apply in_map. }
  unfold incomingEdge at 1. destruct (_ && _ && _); simpl; [|exact IH].
  constructor; assumption.
Qed.

(** X11: where the edges lead.  Every edge of [getExecutionFlow] ends
    on a node and starts on the line right above it; it starts on a
    node exactly when that line is not blank.  No two edges share a
    target (targets increase along the list), and there are at most
    as many edges as nodes. *)
Theorem X11_edge_endpoints (eng : engine) :
  let lines := split nl (code eng) in
  let flow := getExecutionFlow eng in
  (forall e, In e (edges flow) ->
     (exists n, In n (nodes flow) /\ node_line n = edge_to e) /\
     edge_from e = (edge_to e - 1)%Z /\
     (1 <= edge_from e)%Z /\
     ((exists m, In m (nodes flow) /\ node_line m = edge_from e) <->
      (exists line, nth_error lines (Z.to_nat (edge_from e - 1)) = Some line /\
                    isEmpty (trim line) = false))) /\
  StronglySorted Z.lt (map edge_to (edges flow)) /\
  (List.length (edges flow) <= List.length (nodes flow))%nat.
Proof.
  cbv zeta.
  destruct (nodes_are_nonblank_lines eng) as (Hnode & Hline & Hsorted).
  rewrite getExecutionFlow_edges.
  split; [|split].
  - intros e He. apply in_flat_map in He as (n & Hn & He).
    apply incomingEdge_target in He as (Hto & Hfrom & Hpos).
    split; [exists n; auto|]. split; [lia|]. split; [lia|]. split.
    + intros (m & Hm & Hml).
      destruct (Hnode m Hm) as (i & line & Hnth & Hb & HL & _).
      exists line. split; [|exact Hb].
      replace (Z.to_nat (edge_from e - 1)) with i by lia. exact Hnth.
    + intros (line & Hnth & Hb).
      destruct (Hline _ line Hnth Hb) as (m & Hm & Hml).
      exists m. split; [exact Hm|]. lia.
  - now apply flat_map_incomingEdge_sorted.
  - apply flat_map_incomingEdge_length.
Qed.

Lemma X11_witness :
  edge_from {| edge_from := 2; edge_to := 3 |}
  = (edge_to {| edge_from := 2; edge_to := 3 |} - 1)%Z.
Proof.
  destruct (X11_edge_endpoints (setCode gapped javascript constructor)) as (Hall & _).
  destruct (Hall {| edge_from := 2; edge_to := 3 |}) as (_ & Hfrom & _).
  - vm_compute. left. reflexivity.
  - exact Hfrom.
Defined.

(** ** More on the instrumenter *)

(** [join] undoes [split]. *)
Lemma join_split (sep : N) (s : jsstring) : join [sep] (split sep s) = s.
Proof.
  induction s as [|c rest IH]; simpl; [reflexivity|].
  destruct (N.eqb_spec c sep) as [->|Hc].
  - pose proof (split_not_nil sep rest) as Hne.
    destruct (split sep rest) as [|p ps]; [congruence|].
    change (join [sep] ([] :: p :: ps)) with (sep :: join [sep] (p :: ps)).
    now rewrite IH.
  - destruct (split sep rest) as [|p ps] eqn:Es.
    + now apply split_not_nil in Es.
    + destruct ps as [|q ps].
      * simpl in *. now rewrite IH.
      * change (join [sep] ((c :: p) :: q :: ps))
          with (c :: (p ++ [sep] ++ join [sep] (q :: ps))).
        change (join [sep] (p :: q :: ps))
          with (p ++ [sep] ++ join [sep] (q :: ps)) in IH.
        now rewrite IH.
Qed.

Lemma instrumentLine_untracked (idx : nat) (line : jsstring) :
  instrumentLine idx line = line <-> isTracked line = false.
Proof.
  unfold instrumentLine, isTracked.
  destruct (isEmpty (trim line) || startsWith (trim line) commentMarker);
    cbn [negb].
  - split; reflexivity.
  - split; [|discriminate]. intros E.
    apply (f_equal (@List.length N)) in E.
    rewrite !length_app in E. simpl in E. lia.
Qed.

Lemma mapIndexed_untracked (lines : list jsstring) :
  forall idx,
    mapIndexed instrumentLine idx lines = lines <->
    Forall (fun line => isTracked line = false) lines.
Proof.
  induction lines as [|l rest IH]; intros idx; simpl.
  - split; [constructor|reflexivity].
  - split.
    + intros [= Hl Hrest]. constructor.
      * now apply (instrumentLine_untracked idx).
      * now apply (IH (S idx)).
    + intros Hall. inversion Hall as [|? ? Hl Hrest]; subst. f_equal.
      * now apply instrumentLine_untracked.
      * now apply IH.
Qed.

(** X12: when instrumenting changes nothing.  [instrumentCode] returns
    its argument unchanged exactly when every line of it is blank or a
    comment line; putting the lines of any text back together with
    newlines gives the text again. *)
Theorem X12_instrumentCode_fixpoint (code : jsstring) :
  (instrumentCode code = code <->
   Forall (fun line => isTracked line = false) (split nl code)) /\
  join [nl] (split nl code) = code.
Proof.
  split; [|apply join_split]. split.
  - intros E. apply (mapIndexed_untracked _ 0).
    rewrite <- split_instrumentCode. now rewrite E.
  - intros Hall. unfold instrumentCode.
    apply (mapIndexed_untracked _ 0) in Hall. rewrite Hall. apply join_split.
Qed.

(** X13: tracked lines are drawn.  Every line that [instrumentCode]
    gives a tracking call has a node in the flow graph of the same
    code, with the number the call carries; a node whose line gets no
    tracking call is a comment line. *)
Theorem X13_tracked_lines_have_nodes (eng : engine) :
  let lines := split nl (code eng) in
  let out := split nl (instrumentCode (code eng)) in
  let flow := getExecutionFlow eng in
  (forall i line,
     nth_error lines i = Some line ->
     isTracked line = true ->
     nth_error out i
     = Some (lit "__track(" ++ numberToString (Z.of_nat i + 1) ++ lit "); " ++ line) /\
     exists n, In n (nodes flow) /\ node_line n = (Z.of_nat i + 1)%Z) /\
  (forall n, In n (nodes flow) ->
     exists i line,
       nth_error lines i = Some line /\
       node_line n = (Z.of_nat i + 1)%Z /\
       (isTracked line = true \/
        (startsWith (node_code n) commentMarker = true /\
         nth_error out i = Some line))).
Proof.
  cbv zeta. rewrite split_instrumentCode.
  destruct (nodes_are_nonblank_lines eng) as (Hnode & Hline & _).
  split.
  - intros i line Hnth Ht. unfold isTracked in Ht.
    apply negb_true_iff, orb_false_iff in Ht as (Hb & Hc).
    split.
    + rewrite (mapIndexed_nth_error instrumentLine _ 0 i line Hnth). simpl.
      unfold instrumentLine. now rewrite Hb, Hc.
    + now apply (Hline i line).
  - intros n Hn. destruct (Hnode n Hn) as (i & line & Hnth & Hb & HL & _ & Hcode & _).
    exists i, line. split; [exact Hnth|split; [exact HL|]].
    unfold isTracked. rewrite Hb, Hcode. simpl.
    destruct (startsWith (trim line) commentMarker) eqn:Hc; [right|now left].
    split; [reflexivity|].
    rewrite (mapIndexed_nth_error instrumentLine _ 0 i line Hnth). simpl.
    unfold instrumentLine. now rewrite Hc, orb_true_r.
Qed.

Lemma X13_witness :
  exists n, In n (nodes (getExecutionFlow (setCode gapped javascript constructor)))
            /\ node_line n = 3%Z.
Proof.
  destruct (X13_tracked_lines_have_nodes (setCode gapped javascript constructor))
    as (Htracked & _).
  destruct (Htracked 2%nat (lit "b();")) as (_ & Hnode); [reflexivity|reflexivity|].
  exact Hnode.
Defined.

(** ** The order of hotspots with equal counts *)

Lemma StronglySorted_app_intro {A : Type} (R : A -> A -> Prop) (l1 l2 : list A) :
  StronglySorted R l1 -> StronglySorted R l2 ->
  (forall a b, In a l1 -> In b l2 -> R a b) ->
  StronglySorted R (l1 ++ l2).
Proof.
  induction 1 as [|x l1 Hs IH Hx]; intros Hs2 Hcross; simpl; [exact Hs2|].
  constructor.
  - apply IH; [exact Hs2|]. intros a b Ha Hb. apply Hcross; [now right|exact Hb].
  - apply Forall_app. split; [exact Hx|].
    apply Forall_forall. intros b Hb. apply Hcross; [now left|exact Hb].
Qed.

Lemma StronglySorted_filter_keep {A : Type} (R : A -> A -> Prop) (f : A -> bool)
    (l : list A) :
  StronglySorted R l -> StronglySorted R (filter f l).
Proof.
  induction 1 as [|x l Hs IH Hx]; simpl; [constructor|].
  destruct (f x); [|exact IH]. constructor; [exact IH|].
  rewrite Forall_forall in *. intros y Hy. apply filter_In in Hy as (Hy & _). auto.
Qed.

Lemma insertByKey_sorted (e : Z * nat) (l : counts) :
  StronglySorted (fun a b => (fst a <= fst b)%Z) l ->
  StronglySorted (fun a b => (fst a <= fst b)%Z) (insertByKey e l).
Proof.
  induction 1 as [|x rest Hs IH Hx]; simpl.
  - constructor; constructor.
  - destruct (Z.leb_spec (fst e) (fst x)) as [Hle|Hgt].
    + constructor; [constructor; assumption|].
      constructor; [exact Hle|].
      eapply Forall_impl; [|exact Hx]. simpl. intros a Ha. lia.
    + constructor; [exact IH|].
      rewrite (insertByKey_perm e rest). constructor; [lia|exact Hx].
Qed.

Lemma sorted_keys_strict (l : counts) :
  StronglySorted (fun a b => (fst a <= fst b)%Z) l ->
  NoDup (keys l) ->
  StronglySorted (fun a b => (fst a < fst b)%Z) l.
Proof.
  induction 1 as [|x rest Hs IH Hx]; intros Hnd; [constructor|].
  inversion Hnd as [|? ? Hnotin Hnd']; subst.
  constructor; [now apply IH|].
  rewrite Forall_forall in *. intros y Hy. specialize (Hx y Hy).
  assert (fst x <> fst y); [|lia].
  intros E. apply Hnotin. rewrite E. now apply in_map.
Qed.

Lemma nonindex_keyOrder (l : counts) :
  Forall (fun e => isArrayIndex (fst e) = false) l -> StronglySorted keyOrder l.
Proof.
  induction 1 as [|x rest Hx Hrest IH]; constructor; [exact IH|].
  apply Forall_forall. intros b _ Hidx. congruence.
Qed.

(** [Object.entries] lists array-index keys in ascending order before
    any other key. *)
Lemma objectEntries_keyOrder (o : counts) :
  NoDup (keys o) -> StronglySorted keyOrder (objectEntries o).
Proof.
  intros Hnd. unfold objectEntries.
  set (idx := filter (fun e => isArrayIndex (fst e)) o).
  assert (Hperm : Permutation (fold_right insertByKey [] idx) idx).
  { induction idx as [|x rest IH]; simpl; [reflexivity|].
    rewrite insertByKey_perm. now constructor. }
  assert (Hstrict : StronglySorted (fun a b => (fst a < fst b)%Z)
                      (fold_right insertByKey [] idx)).
  { apply sorted_keys_strict.
    - clear Hperm. induction idx as [|x rest IH]; simpl; [constructor|].
      now apply insertByKey_sorted.
    - unfold keys. eapply Permutation_NoDup;
        [apply Permutation_map, Permutation_sym, Hperm|].
      now apply NoDup_keys_filter. }
  apply StronglySorted_app_intro.
  - clear Hperm. induction Hstrict as [|x rest Hs IH Hx]; constructor; [exact IH|].
    eapply Forall_impl; [|exact Hx]. unfold keyOrder. auto.
  - apply nonindex_keyOrder. apply Forall_forall.
    intros e He. apply filter_In in He as (_ & He). now apply negb_true_iff in He.
  - intros a b _ Hb. apply filter_In in Hb as (_ & Hb).
    apply negb_true_iff in Hb. unfold keyOrder. congruence.
Qed.

(** The sort is stable: entries with equal counts keep the order they
    came in. *)
Lemma insertByCount_stable (e : Z * nat) (l : counts) :
  StronglySorted countThenKey l ->
  Forall (keyOrder e) l ->
  StronglySorted countThenKey (insertByCount e l).
Proof.
  induction 1 as [|x rest Hs IH Hx]; intros He; simpl.
  - constructor; constructor.
  - inversion He as [|? ? Hex Herest]; subst.
    destruct (Nat.ltb_spec (snd e) (snd x)) as [Hlt|Hge].
    + constructor; [now apply IH|].
      rewrite (insertByCount_perm e rest).
      constructor; [left; exact Hlt|exact Hx].
    + constructor; [constructor; assumption|].
      constructor.
      * destruct (Nat.eq_dec (snd x) (snd e)) as [E|Hne];
          [right; auto|left; lia].
      * rewrite Forall_forall in *. intros y Hy.
        assert (Hyx : (snd y <= snd x)%nat).
        { destruct (Hx y Hy) as [Hlt|(E & _)]; lia. }
        destruct (Nat.eq_dec (snd y) (snd e)) as [E|Hne];
          [right; auto|left; lia].
Qed.

Lemma sortByCount_stable (l : counts) :
  StronglySorted keyOrder l -> StronglySorted countThenKey (sortByCount l).
Proof.
  induction 1 as [|x rest Hs IH Hx]; simpl; [constructor|].
  apply insertByCount_stable; [exact IH|].
  eapply Permutation_Forall; [apply Permutation_sym, sortByCount_perm|exact Hx].
Qed.

(** X14: ties among hotspots.  In the list [analyzePerformance]
    returns, a hotspot comes before every hotspot with a smaller
    count, and of two hotspots with the same count whose lines are
    array indices (0 up to 2^32 - 2, so every line number of a source)
    the one on the lower line comes first. *)
Theorem X14_hotspot_ties (eng : engine) :
  StronglySorted hotspotOrder (hotspots (analyzePerformance eng)).
Proof.
  rewrite hotspots_unfold.
  assert (Hs : StronglySorted countThenKey
                 (sortByCount
                    (filter (fun e => (10 <? snd e)%nat)
                       (objectEntries
                          (lineExecutionCounts
                             (executionHistory (executionState eng))))))).
  { apply sortByCount_stable, StronglySorted_filter_keep, objectEntries_keyOrder.
    apply lineExecutionCounts_spec. }
  induction Hs as [|x rest Hs IH Hx]; simpl; constructor; [exact IH|].
  rewrite Forall_map. eapply Forall_impl; [|exact Hx].
  intros a Ha. exact Ha.
Qed.

Example tied_hotspots_by_line :
  map hot_line (hotspots (analyzePerformance tiedEngine)) = [3%Z; 7%Z].
Proof. vm_compute. reflexivity. Qed.

(* ================================================================== *)
(** * Properties of the analyzer helpers *)

(** ** Keys of issues *)

Lemma lit_inj (a b : string) : lit a = lit b -> a = b.
Proof.
  revert b. induction a as [|x a IH]; intros [|y b]; simpl; try discriminate.
  - reflexivity.
  - intros [= Hxy Hab]. f_equal; [|now apply IH].
    rewrite <- (ascii_N_embedding x), <- (ascii_N_embedding y). now rewrite Hxy.
Qed.

Lemma to_int_not_nil (z : Z) :
  Z.to_int z <> Decimal.Pos Decimal.Nil /\ Z.to_int z <> Decimal.Neg Decimal.Nil.
Proof.
  destruct z as [|p|p]; simpl; split; try discriminate;
    intros [= E]; now apply DecimalPos.Unsigned.to_uint_nonnil in E.
Qed.

Lemma numberToString_inj (x y : Z) :
  numberToString x = numberToString y -> x = y.
Proof.
  unfold numberToString. intros E. apply lit_inj in E.
  apply DecimalZ.to_int_inj.
  destruct (to_int_not_nil x) as (Hx1 & Hx2), (to_int_not_nil y) as (Hy1 & Hy2).
  pose proof (NilZero.isi (Z.to_int x) Hx1 Hx2) as Ex.
  pose proof (NilZero.isi (Z.to_int y) Hy1 Hy2) as Ey.
  rewrite E in Ex. congruence.
Qed.

Lemma digits_free_of_colon (d : Decimal.uint) :
  ~ In colon (lit (NilEmpty.string_of_uint d)).
Proof.
  induction d; simpl; [intros []|..];
    (intros [E|E]; [discriminate E|auto]).
Qed.

Lemma numberToString_free_of_colon (z : Z) : ~ In colon (numberToString z).
Proof.
  unfold numberToString, NilZero.string_of_int.
  destruct (Z.to_int z) as [d|d]; unfold NilZero.string_of_uint.
  - destruct d; try apply digits_free_of_colon.
    simpl. intros [E|[]]. discriminate E.
  - intros [E|E]; [discriminate E|].
    destruct d; try (now apply (digits_free_of_colon _ E)).
    destruct E as [E|[]]. discriminate E.
Qed.

Lemma app_sep_inj (c : N) (a b m1 m2 : jsstring) :
  ~ In c a -> ~ In c b ->
  a ++ c :: m1 = b ++ c :: m2 -> a = b /\ m1 = m2.
Proof.
  revert b. induction a as [|x a IH]; intros [|y b] Ha Hb E; simpl in *.
  - injection E as ->. auto.
  - injection E as -> _. exfalso. auto.
  - injection E as -> _. exfalso. auto.
  - injection E as -> E. destruct (IH b) as (-> & ->); auto.
Qed.

(** Two issues have the same key exactly when they have the same line
    and the same message. *)
Lemma issueKey_inj (a b : issue) :
  issueKey a = issueKey b <-> lineAndMessage a = lineAndMessage b.
Proof.
  unfold issueKey, lineAndMessage. split.
  - intros E. apply app_sep_inj in E as (En & Em);
      try apply numberToString_free_of_colon.
    apply numberToString_inj in En. congruence.
  - intros [= -> ->]. reflexivity.
Qed.

Lemma seenHas_In (key : jsstring) (seen : list jsstring) :
  seenHas key seen = true <-> In key seen.
Proof.
  unfold seenHas. rewrite existsb_exists. split.
  - intros (k & Hin & E). apply string_eqb_eq in E. now subst.
  - intros Hin. exists key. split; [exact Hin|apply string_eqb_refl].
Qed.

Lemma seenHas_false (key : jsstring) (seen : list jsstring) :
  seenHas key seen = false <-> ~ In key seen.
Proof.
  rewrite <- seenHas_In. destruct (seenHas key seen); split; congruence.
Qed.

(** ** deduplicateIssues *)

Lemma deduplicateFrom_spec (issues : list issue) :
  forall seen,
    let out := deduplicateFrom seen issues in
    subsequence out issues /\
    (forall i, In i out -> ~ In (issueKey i) seen) /\
    NoDup (map issueKey out) /\
    (forall i, In i issues -> ~ In (issueKey i) seen ->
               exists j, In j out /\ issueKey j = issueKey i) /\
    (forall l1 i l2, issues = l1 ++ i :: l2 ->
       ~ In (issueKey i) seen ->
       (forall j, In j l1 -> issueKey j <> issueKey i) ->
       In i out).
Proof.
  induction issues as [|x rest IH]; intros seen; cbv zeta; simpl.
  - split; [constructor|]. split; [intros i []|]. split; [constructor|].
    split; [intros i []|]. intros [|y l1] i l2 E; discriminate E.
  - destruct (seenHas (issueKey x) seen) eqn:Hseen.
    + apply seenHas_In in Hseen.
      destruct (IH seen) as (Hsub & Hnew & Hnd & Hrep & Hfirst).
      split; [now constructor|]. split; [exact Hnew|]. split; [exact Hnd|]. split.
      * intros i [<-|Hi] Hk; [contradiction|now apply Hrep].
      * intros [|y l1] i l2 E Hk Hbefore; simpl in E; injection E as -> ->.
        -- contradiction.
        -- apply (Hfirst l1 i l2 eq_refl Hk).
           intros j Hj. apply Hbefore. now right.
    + apply seenHas_false in Hseen.
      destruct (IH (seen ++ [issueKey x])) as (Hsub & Hnew & Hnd & Hrep & Hfirst).
      split; [now constructor|]. split; [|split; [|split]].
      * intros i [<-|Hi]; [exact Hseen|].
        intros Hin. apply (Hnew i Hi). apply in_or_app. now left.
      * simpl. constructor; [|exact Hnd].
        intros Hin. apply in_map_iff in Hin as (j & Hj & Hin).
        apply (Hnew j Hin). apply in_or_app. right. left. now symmetry.
      * intros i [<-|Hi] Hk; [exists x; split; [now left|reflexivity]|].
        destruct (list_eq_dec N.eq_dec (issueKey i) (issueKey x)) as [E|Hne].
        -- exists x. split; [now left|now symmetry].
        -- destruct (Hrep i Hi) as (j & Hj & Hkj).
           ++ intros Hin. apply in_app_or in Hin as [Hin|[Hin|[]]]; auto.
           ++ exists j. split; [now right|exact Hkj].
      * intros [|y l1] i l2 E Hk Hbefore; simpl in E; injection E as -> ->.
        -- now left.
        -- right. apply (Hfirst l1 i l2 eq_refl).
           ++ intros Hin. apply in_app_or in Hin as [Hin|[Hin|[]]]; auto.
              apply (Hbefore y); [now left|exact Hin].
           ++ intros j Hj. apply Hbefore. now right.
Qed.

Lemma deduplicateFrom_id (issues : list issue) :
  forall seen,
    NoDup (map issueKey issues) ->
    (forall i, In i issues -> ~ In (issueKey i) seen) ->
    deduplicateFrom seen issues = issues.
Proof.
  induction issues as [|x rest IH]; intros seen Hnd Hnew; simpl; [reflexivity|].
  inversion Hnd as [|? ? Hx Hrest]; subst.
  destruct (seenHas (issueKey x) seen) eqn:Hseen.
  - apply seenHas_In in Hseen. exfalso. apply (Hnew x); [now left|exact Hseen].
  - f_equal. apply IH; [exact Hrest|].
    intros i Hi Hin. apply in_app_or in Hin as [Hin|[Hin|[]]].
    + apply (Hnew i); [now right|exact Hin].
    + apply Hx. rewrite Hin. now apply in_map.
Qed.

(** X15: [deduplicateIssues] keeps the first issue of every line and
    message.  Its result is the input with some issues left out, in
    the same order; no two issues of the result have the same line and
    message; every issue of the input has one with its line and
    message in the result, and an issue that no earlier issue shares
    line and message with is kept itself; a second pass changes
    nothing. *)
Theorem X15_deduplicateIssues (issues : list issue) :
  let out := deduplicateIssues issues in
  subsequence out issues /\
  NoDup (map lineAndMessage out) /\
  (forall i, In i issues ->
     exists j, In j out /\ lineAndMessage j = lineAndMessage i) /\
  (forall l1 i l2, issues = l1 ++ i :: l2 ->
     (forall j, In j l1 -> lineAndMessage j <> lineAndMessage i) ->
     In i out) /\
  deduplicateIssues out = out.
Proof.
  cbv zeta. unfold deduplicateIssues.
  destruct (deduplicateFrom_spec issues []) as (Hsub & _ & Hnd & Hrep & Hfirst).
  split; [exact Hsub|]. split; [|split; [|split]].
  - clear -Hnd. induction (deduplicateFrom [] issues) as [|x l IH]; simpl;
      [constructor|].
    inversion Hnd as [|? ? Hx Hl]; subst. constructor; [|now apply IH].
    intros Hin. apply Hx. apply in_map_iff in Hin as (j & Hj & Hin).
    apply in_map_iff. exists j. split; [now apply issueKey_inj|exact Hin].
  - intros i Hi. destruct (Hrep i Hi) as (j & Hj & Hk); [intros []|].
    exists j. split; [exact Hj|now apply issueKey_inj].
  - intros l1 i l2 E Hbefore. apply (Hfirst l1 i l2 E); [intros []|].
    intros j Hj Hk. apply (Hbefore j Hj). now apply issueKey_inj.
  - apply deduplicateFrom_id; [exact Hnd|intros i _ []].
Qed.

Lemma X15_witness :
  In (mkIssue (Some (lit "security")) 7 (lit "eval() usage detected")
              (Some (lit "critical")) None)
     (deduplicateIssues sampleIssues).
Proof.
  destruct (X15_deduplicateIssues sampleIssues) as (_ & _ & _ & Hfirst & _).
  apply (Hfirst [mkIssue (Some (lit "warning")) 3 (lit "Variable 'x' may be unused")
                         (Some (lit "low")) None]
                _
                [mkIssue None 3 (lit "Variable 'x' may be unused") None
                         (Some (1 # 2)%Q)]).
  - reflexivity.
  - intros j [<-|[]] E. vm_compute in E. discriminate E.
Defined.

Example deduplicate_sample :
  map issue_line (deduplicateIssues sampleIssues) = [3%Z; 7%Z].
Proof. vm_compute. reflexivity. Qed.

(** ** generateSummary *)

Lemma severity_exclusive (i : issue) :
  ((if hasSeverity (lit "critical") i then 1 else 0)
   + (if hasSeverity (lit "high") i then 1 else 0)
   + (if hasSeverity (lit "medium") i then 1 else 0)
   + (if hasSeverity (lit "low") i then 1 else 0))%nat
  = if knownSeverity i then 1%nat else 0%nat.
Proof.
  unfold knownSeverity, hasSeverity. destruct (issue_severity i) as [x|]; [|reflexivity].
  destruct (string_eqb x (lit "critical")) eqn:E1;
    destruct (string_eqb x (lit "high")) eqn:E2;
    destruct (string_eqb x (lit "medium")) eqn:E3;
    destruct (string_eqb x (lit "low")) eqn:E4;
    try reflexivity;
    match goal with
    | E : string_eqb x _ = true |- _ => apply string_eqb_eq in E; subst x
    end;
    vm_compute in *; congruence.
Qed.

Lemma type_exclusive (i : issue) :
  ((if hasType (lit "security") i then 1 else 0)
   + (if hasType (lit "error") i then 1 else 0) <= 1)%nat.
Proof.
  unfold hasType. destruct (issue_type i) as [x|]; [|simpl; lia].
  destruct (string_eqb x (lit "security")) eqn:E1;
    destruct (string_eqb x (lit "error")) eqn:E2; try lia.
  apply string_eqb_eq in E1. subst x. vm_compute in E2. discriminate E2.
Qed.

Lemma filter_length_cons {A : Type} (f : A -> bool) (x : A) (l : list A) :
  List.length (filter f (x :: l))
  = ((if f x then 1 else 0) + List.length (filter f l))%nat.
Proof. simpl. destruct (f x); reflexivity. Qed.

(** X16: what the summary counts.  [total] is the number of issues;
    the four severity counts never add up to more than [total], and
    add up to it exactly when every issue has one of the severities
    critical, high, medium, low; [security] and [errors] together do
    not exceed [total]; the message is the no-issues text exactly when
    the list is empty. *)
Theorem X16_generateSummary (issues : list issue) :
  let s := generateSummary issues in
  total s = List.length issues /\
  (critical s + high s + medium s + low s <= total s)%nat /\
  ((critical s + high s + medium s + low s)%nat = total s <->
   Forall (fun i => knownSeverity i = true) issues) /\
  (security s + errors s <= total s)%nat /\
  (message s = noIssuesMessage <-> issues = []).
Proof.
  cbv zeta. unfold generateSummary. cbn [total critical high medium low security errors message].
  assert (Hsum : forall l : list issue,
            (List.length (filter (hasSeverity (lit "critical")) l)
             + List.length (filter (hasSeverity (lit "high")) l)
             + List.length (filter (hasSeverity (lit "medium")) l)
             + List.length (filter (hasSeverity (lit "low")) l))%nat
            = List.length (filter knownSeverity l)).
  { induction l as [|x l IH]; [reflexivity|].
    rewrite !filter_length_cons, <- IH, <- (severity_exclusive x). lia. }
  split; [reflexivity|]. split; [|split; [|split]].
  - rewrite Hsum. apply filter_length_le.
  - rewrite Hsum. clear Hsum. induction issues as [|x l IH].
    + split; [constructor|reflexivity].
    + rewrite filter_length_cons. simpl List.length.
      pose proof (filter_length_le knownSeverity l) as Hle.
      destruct (knownSeverity x) eqn:Ex; split.
      * intros E. constructor; [exact Ex|]. apply IH. lia.
      * intros Hall. inversion Hall as [|? ? _ Hl]; subst.
        apply IH in Hl. simpl. now rewrite Hl.
      * intros E. lia.
      * intros Hall. inversion Hall; subst. congruence.
  - induction issues as [|x l IH]; [simpl; lia|].
    rewrite !filter_length_cons. simpl List.length.
    pose proof (type_exclusive x). lia.
  - destruct issues as [|x l]; simpl.
    + split; reflexivity.
    + split; discriminate.
Qed.

Lemma X16_witness :
  (critical (generateSummary (deduplicateIssues sampleIssues))
   + high (generateSummary (deduplicateIssues sampleIssues))
   + medium (generateSummary (deduplicateIssues sampleIssues))
   + low (generateSummary (deduplicateIssues sampleIssues)))%nat
  = total (generateSummary (deduplicateIssues sampleIssues)).
Proof.
  destruct (X16_generateSummary (deduplicateIssues sampleIssues))
    as (_ & _ & Hall & _).
  apply Hall. vm_compute. repeat constructor.
Defined.

(** ** calculateMetrics *)





Example metrics_of_blank_text :
  commentRatio (calculateMetrics (unlines [[]; lit "   "])) = Some 0%Q.
Proof. vm_compute. reflexivity. Qed.

(** ** calculateCyclomaticComplexity *)

Lemma startsWith_length (s prefix : jsstring) :
  startsWith s prefix = true -> (List.length prefix <= List.length s)%nat.
Proof.
  revert s. induction prefix as [|p prefix IH]; intros [|c s]; simpl;
    try lia; try discriminate.
  intros H. apply andb_true_iff in H as (_ & H). apply IH in H. lia.
Qed.

Lemma startsWith_app_free (s t prefix : jsstring) :
  ~ In nl prefix ->
  startsWith (s ++ nl :: t) prefix = startsWith s prefix.
Proof.
  revert s. induction prefix as [|p prefix IH]; intros s Hfree.
  - destruct s; reflexivity.
  - destruct s as [|c s]; cbn [app startsWith].
    + destruct (N.eqb_spec nl p) as [E|_]; [|reflexivity].
      exfalso. apply Hfree. left. now symmetry.
    + rewrite IH; [reflexivity|]. intros Hin. apply Hfree. now right.
Qed.

Lemma isWordAt_nth_app (s t : jsstring) (k : nat) :
  (k <= List.length s)%nat ->
  isWordAt (nth_error (s ++ nl :: t) k) = isWordAt (nth_error s k).
Proof.
  revert k. induction s as [|c s IH]; intros [|k] Hk; simpl in *; try lia;
    try reflexivity.
  apply IH. lia.
Qed.

(** A keyword match does not look past a newline. *)
Lemma matchesWord_app (keyword : jsstring) (prev : option N) (s t : jsstring) :
  keyword <> [] -> ~ In nl keyword -> s <> [] ->
  matchesWord keyword prev (s ++ nl :: t) = matchesWord keyword prev s.
Proof.
  intros Hne Hfree Hs. unfold matchesWord, wordBoundary.
  rewrite (startsWith_app_free s t keyword Hfree).
  destruct (startsWith s keyword) eqn:Hsw.
  - apply startsWith_length in Hsw.
    rewrite !isWordAt_nth_app by lia. reflexivity.
  - rewrite !andb_false_r. reflexivity.
Qed.

Section CountAcrossNewline.

Variable matchesAt : option N -> jsstring -> bool.
Variable len : nat.

Hypothesis match_local :
  forall prev s t, s <> [] -> matchesAt prev (s ++ nl :: t) = matchesAt prev s.
Hypothesis match_fits :
  forall prev s, matchesAt prev s = true -> (len <= List.length s)%nat.
Hypothesis match_not_newline :
  forall prev t, matchesAt prev (nl :: t) = false.
Hypothesis match_start :
  forall s, matchesAt (Some nl) s = matchesAt None s.

Lemma countMatches_start (s : jsstring) :
  countMatches matchesAt len 0 (Some nl) s = countMatches matchesAt len 0 None s.
Proof. destruct s; simpl; [reflexivity|]. now rewrite match_start. Qed.

Lemma countMatches_app (a b : jsstring) :
  forall skip prev,
    (skip <= List.length a)%nat ->
    countMatches matchesAt len skip prev (a ++ nl :: b)
    = (countMatches matchesAt len skip prev a
       + countMatches matchesAt len 0 None b)%nat.
Proof.
  induction a as [|c a IH]; intros skip prev Hskip.
  - simpl in Hskip. replace skip with 0%nat by lia. simpl.
    now rewrite match_not_newline, countMatches_start.
  - destruct skip as [|k].
    + change ((c :: a) ++ nl :: b) with (c :: (a ++ nl :: b)).
      cbn [countMatches].
      change (c :: (a ++ nl :: b)) with ((c :: a) ++ nl :: b).
      rewrite match_local by discriminate.
      destruct (matchesAt prev (c :: a)) eqn:Hm.
      * apply match_fits in Hm. simpl in Hm.
        rewrite IH by lia. reflexivity.
      * apply IH. lia.
    + simpl. apply IH. simpl in Hskip. lia.
Qed.

End CountAcrossNewline.

Lemma countKeyword_app (keyword a b : jsstring) :
  keyword <> [] -> ~ In nl keyword ->
  countKeyword (a ++ nl :: b) keyword
  = (countKeyword a keyword + countKeyword b keyword)%nat.
Proof.
  intros Hne Hfree. unfold countKeyword. apply countMatches_app; [| | | |lia].
  - intros prev s t Hs. now apply matchesWord_app.
  - intros prev s Hm. unfold matchesWord in Hm.
    apply andb_true_iff in Hm as (Hm & _). apply andb_true_iff in Hm as (_ & Hm).
    now apply startsWith_length.
  - intros prev t. unfold matchesWord.
    destruct keyword as [|k keyword]; [congruence|]. cbn [startsWith].
    destruct (N.eqb_spec nl k) as [E|_].
    + exfalso. apply Hfree. left. now symmetry.
    + cbn [andb]. now rewrite andb_false_r.
  - intros s. reflexivity.
Qed.

Lemma countOperator_app (operator a b : jsstring) :
  operator <> [] -> ~ In nl operator ->
  countOperator (a ++ nl :: b) operator
  = (countOperator a operator + countOperator b operator)%nat.
Proof.
  intros Hne Hfree. unfold countOperator. apply countMatches_app; [| | | |lia].
  - intros prev s t _. unfold matchesLiteral. now apply startsWith_app_free.
  - intros prev s Hm. now apply startsWith_length.
  - intros prev t. unfold matchesLiteral.
    destruct operator as [|k operator]; [congruence|]. cbn [startsWith].
    destruct (N.eqb_spec nl k) as [E|_]; [|reflexivity].
    exfalso. apply Hfree. left. now symmetry.
  - intros s. reflexivity.
Qed.

Lemma literal_free_of_nl (s : string) :
  forallb (fun c => negb (N.eqb c nl)) (lit s) = true -> ~ In nl (lit s).
Proof.
  intros Hall Hin. rewrite forallb_forall in Hall.
  specialize (Hall nl Hin). now rewrite N.eqb_refl in Hall.
Qed.

(** X18: complexity is counted line by line.  The complexity of two
    texts joined by a newline is the sum of their complexities minus
    one: no keyword or operator is counted across a line break, and
    none is lost at one.  The complexity is never below 1. *)
Theorem X18_complexity_by_line (a b : jsstring) :
  (calculateCyclomaticComplexity (a ++ [nl] ++ b) + 1
   = calculateCyclomaticComplexity a + calculateCyclomaticComplexity b)%nat /\
  (1 <= calculateCyclomaticComplexity a)%nat.
Proof.
  unfold calculateCyclomaticComplexity, keywords, operators.
  cbn [fold_left app].
  rewrite !countKeyword_app, !countOperator_app;
    try discriminate; try (apply literal_free_of_nl; reflexivity).
  split; lia.
Qed.

Example complexity_else_if :
  calculateCyclomaticComplexity
    (unlines [lit "if (a && b) {"; lit "} else if (format) {"; lit "}"]) = 5%nat.
Proof. vm_compute. reflexivity. Qed.

(** ** extractFunctionBody *)

Lemma isPrefix_nil (q : jsstring) : isPrefix q [] -> q = [].
Proof. intros (t & E). symmetry in E. now apply app_eq_nil in E. Qed.

Lemma isPrefix_cons (q r : jsstring) (c : N) :
  isPrefix q (c :: r) -> q = [] \/ exists q', q = c :: q' /\ isPrefix q' r.
Proof.
  intros (t & E). destruct q as [|x q]; [now left|right].
  simpl in E. injection E as -> ->. exists q. split; [reflexivity|now exists t].
Qed.

(** Inside the function: the loop runs to the brace that closes the
    first one, or to the end of the text. *)
Lemma extractLoop_inside (s : jsstring) :
  forall depth, (1 <= depth)%Z ->
    (forall q, isPrefix q (extractLoop depth true s) -> (1 <= depth + balance q)%Z) /\
    (s = extractLoop depth true s \/
     exists post, s = extractLoop depth true s ++ closeBrace :: post /\
                  (depth + balance (extractLoop depth true s) = 1)%Z).
Proof.
  induction s as [|c rest IH]; intros depth Hd.
  - simpl. split; [|now left].
    intros q Hq. apply isPrefix_nil in Hq. subst. simpl. lia.
  - cbn [extractLoop].
    destruct (N.eqb_spec c openBrace) as [Ho|Hno].
    + destruct (IH (depth + 1)%Z) as (Hpre & Hend); [lia|]. split.
      * intros q Hq. apply isPrefix_cons in Hq as [->|(q' & -> & Hq')]; [simpl; lia|].
        specialize (Hpre q' Hq'). cbn [balance].
        destruct (N.eqb_spec c openBrace); [lia|contradiction].
      * destruct Hend as [E|(post & E & Hb)].
        -- left. now rewrite <- E.
        -- right. exists post. split; [simpl; now rewrite <- E|].
           cbn [balance]. destruct (N.eqb_spec c openBrace); [lia|contradiction].
    + destruct (N.eqb_spec c closeBrace) as [Hc|Hnc].
      * destruct (Z.eqb_spec (depth - 1) 0) as [Hz|Hnz]; cbn [andb].
        -- split.
           ++ intros q Hq. apply isPrefix_nil in Hq. subst. simpl. lia.
           ++ right. exists rest. subst c. simpl. split; [reflexivity|lia].
        -- destruct (IH (depth - 1)%Z) as (Hpre & Hend); [lia|]. split.
           ++ intros q Hq.
              apply isPrefix_cons in Hq as [->|(q' & -> & Hq')]; [simpl; lia|].
              specialize (Hpre q' Hq'). cbn [balance].
              destruct (N.eqb_spec c openBrace); [contradiction|].
              destruct (N.eqb_spec c closeBrace); [lia|contradiction].
           ++ destruct Hend as [E|(post & E & Hb)].
              ** left. now rewrite <- E.
              ** right. exists post. split; [simpl; now rewrite <- E|].
                 cbn [balance]. destruct (N.eqb_spec c openBrace); [contradiction|].
                 destruct (N.eqb_spec c closeBrace); [lia|contradiction].
      * destruct (IH depth Hd) as (Hpre & Hend). split.
        -- intros q Hq.
           apply isPrefix_cons in Hq as [->|(q' & -> & Hq')]; [simpl; lia|].
           specialize (Hpre q' Hq'). cbn [balance].
           destruct (N.eqb_spec c openBrace); [contradiction|].
           destruct (N.eqb_spec c closeBrace); [contradiction|lia].
        -- destruct Hend as [E|(post & E & Hb)].
           ++ left. now rewrite <- E.
           ++ right. exists post. split; [simpl; now rewrite <- E|].
              cbn [balance]. destruct (N.eqb_spec c openBrace); [contradiction|].
              destruct (N.eqb_spec c closeBrace); [contradiction|lia].
Qed.

(** Before the function: nothing is collected until the first opening
    brace. *)
Lemma extractLoop_no_open (s : jsstring) :
  forall depth, ~ In openBrace s -> extractLoop depth false s = [].
Proof.
  induction s as [|c rest IH]; intros depth Hfree; [reflexivity|].
  cbn [extractLoop].
  destruct (N.eqb_spec c openBrace) as [Ho|_]; [exfalso; apply Hfree; now left|].
  rewrite andb_false_r.
  destruct (N.eqb c closeBrace); apply IH; intros Hin; apply Hfree; now right.
Qed.

Lemma extractLoop_skip (pre rest : jsstring) :
  ~ In openBrace pre -> ~ In closeBrace pre ->
  forall depth,
    extractLoop depth false (pre ++ openBrace :: rest)
    = openBrace :: extractLoop (depth + 1) true rest.
Proof.
  induction pre as [|c pre IH]; intros Ho Hc depth.
  - reflexivity.
  - change ((c :: pre) ++ openBrace :: rest) with (c :: (pre ++ openBrace :: rest)).
    cbn [extractLoop].
    destruct (N.eqb_spec c openBrace) as [E|_]; [exfalso; apply Ho; now left|].
    destruct (N.eqb_spec c closeBrace) as [E|_]; [exfalso; apply Hc; now left|].
    apply IH; intros Hin; [apply Ho|apply Hc]; now right.
Qed.

(** X19: [extractFunctionBody] stops at the matching brace.  With no
    opening brace from [startIndex] on, the body is empty.  Otherwise,
    when no closing brace comes before the first opening one, the body
    is that opening brace followed by text in which no closing brace
    lacks its opening one; the text runs up to, and leaves out, the
    brace that closes the first one (the braces of the text are then
    balanced), or to the end of the code when there is none. *)
Theorem X19_extractFunctionBody (code : jsstring) (startIndex : nat) :
  (~ In openBrace (skipn startIndex code) ->
   extractFunctionBody code startIndex = []) /\
  (forall pre rest,
     skipn startIndex code = pre ++ openBrace :: rest ->
     ~ In openBrace pre -> ~ In closeBrace pre ->
     exists inner,
       extractFunctionBody code startIndex = openBrace :: inner /\
       (forall q, isPrefix q inner -> (0 <= balance q)%Z) /\
       (rest = inner \/
        exists post, rest = inner ++ closeBrace :: post /\ balance inner = 0%Z)).
Proof.
  unfold extractFunctionBody. split.
  - apply extractLoop_no_open.
  - intros pre rest -> Ho Hc. rewrite (extractLoop_skip pre rest Ho Hc 0).
    exists (extractLoop (0 + 1) true rest). split; [reflexivity|].
    destruct (extractLoop_inside rest (0 + 1)%Z) as (Hpre & Hend); [lia|].
    split.
    + intros q Hq. specialize (Hpre q Hq). lia.
    + destruct Hend as [E|(post & E & Hb)]; [now left|right].
      exists post. split; [exact E|lia].
Qed.

Lemma X19_witness :
  exists inner,
    extractFunctionBody nestedFunction 0 = openBrace :: inner /\
    (forall q, isPrefix q inner -> (0 <= balance q)%Z) /\
    (lit " if (a) { g(); } } h();" = inner \/
     exists post, lit " if (a) { g(); } } h();" = inner ++ closeBrace :: post
                  /\ balance inner = 0%Z).
Proof.
  destruct (X19_extractFunctionBody nestedFunction 0) as (_ & Hbody).
  apply (Hbody (lit "function f(a) ") (lit " if (a) { g(); } } h();")).
  - reflexivity.
  - vm_compute. intuition discriminate.
  - vm_compute. intuition discriminate.
Defined.

Example extract_nested_body :
  extractFunctionBody nestedFunction 0 = lit "{ if (a) { g(); } ".
Proof. vm_compute. reflexivity. Qed.

(* ================================================================== *)
(** * What a further run keeps *)

(** X20: the step counter after clean runs.  Take a program that
    hands [console.log] primitive values only, no symbol among them,
    and that does not end by throwing [null] or [undefined] (what it
    throws is an [Error] with its plain message, or another
    primitive).  If the step counter equals the length of the history
    and the entries carry the steps 0, 1, 2, ... before [execute], the
    same holds after [execute]; it holds of a new state. *)
Theorem X20_step_counter_clean_run (H : jshost) (eng : engine) :
  stepInv (executionState eng) ->
  printable (evalFunction H (useStrict ++ instrumentCode (code eng))) ->
  readable (fst (run H (evalFunction H (useStrict ++ instrumentCode (code eng)))
                   (executionState eng))) ->
  step (executionState (snd (execute H eng)))
  = List.length (executionHistory (executionState (snd (execute H eng)))) /\
  map entry_step (executionHistory (executionState (snd (execute H eng))))
  = seq 0 (List.length (executionHistory (executionState (snd (execute H eng))))) /\
  stepInv freshState.
Proof.
  intros Hinv Hp Hr.
  destruct (stepInv_execute H eng Hp Hr Hinv) as (Hstep & Hsteps).
  split; [exact Hstep|split; [exact Hsteps|split; reflexivity]].
Qed.

Lemma X20_witness :
  step (executionState (snd (execute recaptureHost
                               (setCode recapture javascript constructor))))
  = List.length (executionHistory
                   (executionState (snd (execute recaptureHost
                                           (setCode recapture javascript constructor))))).
Proof.
  destruct (X20_step_counter_clean_run recaptureHost
              (setCode recapture javascript constructor)) as (Hstep & _).
  - split; reflexivity.
  - vm_compute. exact I.
  - vm_compute. exact I.
  - exact Hstep.
Defined.

Lemma lineVisits_app (L : Z) (h1 h2 : list entry) :
  lineVisits L (h1 ++ h2) = (lineVisits L h1 + lineVisits L h2)%nat.
Proof. unfold lineVisits. now rewrite filter_app, length_app. Qed.

(** X21: what has been recorded stays.  After [execute], whatever the
    program does: the states [getVariableStates] listed before are the
    first ones it lists now, in the same order; the entries of
    [getErrorTimeline] likewise; every flow node that was flagged
    executed still is; and every hotspot of [analyzePerformance] is
    still a hotspot, with a count at least as high. *)
Theorem X21_records_persist (H : jshost) (eng : engine) :
  let eng' := snd (execute H eng) in
  (exists more, getVariableStates eng' = getVariableStates eng ++ more) /\
  (exists more, getErrorTimeline eng' = getErrorTimeline eng ++ more) /\
  (forall n, In n (nodes (getExecutionFlow eng)) -> node_executed n = true ->
     exists n', In n' (nodes (getExecutionFlow eng')) /\
                nodeShape n' = nodeShape n /\ node_executed n' = true) /\
  (forall h, In h (hotspots (analyzePerformance eng)) ->
     exists h', In h' (hotspots (analyzePerformance eng')) /\
                hot_line h' = hot_line h /\
                (executionCount h <= executionCount h')%nat).
Proof.
  cbv zeta.
  destruct (execute_keeps_code H eng) as (Hcode & _).
  destruct (execute_extends H eng) as (_ & _ & (l & Hl) & _).
  split; [|split; [|split]].
  - exists (variableStatesOf l). unfold getVariableStates.
    now rewrite Hl, variableStatesOf_app.
  - exists (filter isErrorOrWarning l). unfold getErrorTimeline.
    now rewrite Hl, filter_app.
  - intros n Hn Hex.
    rewrite getExecutionFlow_nodes_eq in Hn.
    apply in_map_iff in Hn as (ln & <- & Hin).
    exists (nodeFor (executionState (snd (execute H eng))) ln). split; [|split].
    + rewrite getExecutionFlow_nodes_eq, Hcode. now apply in_map.
    + reflexivity.
    + simpl in *. unfold lineInHistory in *. rewrite Hl, existsb_app, Hex.
      reflexivity.
  - intros h Hh. rewrite hotspots_unfold in Hh.
    apply in_map_iff in Hh as ([L c] & <- & Hin).
    apply hot_entries_spec in Hin as (-> & Hhot). cbn [hot_line executionCount fst snd].
    set (c' := lineVisits L (executionHistory (executionState (snd (execute H eng))))).
    assert (Hle : (lineVisits L (executionHistory (executionState eng)) <= c')%nat).
    { unfold c'. rewrite Hl, lineVisits_app. lia. }
    exists {| hot_line := L; executionCount := c';
              hot_code := sourceLine (code (snd (execute H eng))) L |}.
    split; [|split; [reflexivity|exact Hle]].
    rewrite hotspots_unfold. apply in_map_iff. exists (L, c').
    split; [reflexivity|]. apply hot_entries_spec. split; [reflexivity|lia].
Qed.
